(** * Gestão de Carreira Inteligente: a verified model of [app.py]

    The development follows the three parts of the program:
    - [categorizar_area] and [load_data] (transcript normalisation),
    - the academic tab of [main] (filter, per-year credits, accumulated
      percentage, IRA, top ten grades),
    - [create_career_assessment] and the strengths of the career tab.

    Text is a list of Unicode code points, as Python's [str]; numeric
    columns are binary64 floats ([PrimFloat]) and [int64] integers ([Z] with
    the wrap-around written out), as pandas stores them. *)

From Stdlib Require Import ZArith NArith List Bool Lia String Ascii.
From Stdlib Require Import QArith Qround Qabs Qpower.
From Stdlib Require Import Floats.
From Stdlib Require Import Permutation Sorted.
Import ListNotations.

Set Warnings "-inexact-float".

(* ================================================================== *)
(** ** Python strings *)

Module PyStr.

(** A Python [str]: a sequence of code points. *)
Definition str := list N.

(** Literals are written as UTF-8 text and decoded to code points. *)
Fixpoint utf8_go (acc : N) (need : nat) (bs : list N) : str :=
  match bs with
  | [] => []
  | b :: bs' =>
      match need with
      | S k =>
          let acc' := (acc * 64 + b mod 64)%N in
          match k with
          | O => acc' :: utf8_go 0 0 bs'
          | S _ => utf8_go acc' k bs'
          end
      | O =>
          if (b <? 128)%N then b :: utf8_go 0 0 bs'
          else if (b <? 224)%N then utf8_go (b mod 32) 1 bs'
          else if (b <? 240)%N then utf8_go (b mod 16) 2 bs'
          else utf8_go (b mod 8) 3 bs'
      end
  end.

Definition py (s : string) : str :=
  utf8_go 0 0 (map Byte.to_N (list_byte_of_string s)).

(** [s.startswith(k)] *)
Fixpoint startswith (s k : str) {struct k} : bool :=
  match k, s with
  | [], _ => true
  | _ :: _, [] => false
  | a :: k', b :: s' => (a =? b)%N && startswith s' k'
  end.

(** [k in s]: [k] occurs in [s] as a contiguous run. *)
Fixpoint contains (s k : str) : bool :=
  startswith s k ||
  match s with
  | [] => false
  | _ :: s' => contains s' k
  end.

Section Upper.
(** [str.upper] maps each code point through Unicode's full upper-case
    mapping, which may produce several code points.  The table is
    written out for U+0000..U+00FF; the rest of the table is
    [upper_ext]. *)
Variable upper_ext : N -> list N.

Definition upper_cp (c : N) : list N :=
  if (97 <=? c)%N && (c <=? 122)%N then [(c - 32)%N]          (* a-z *)
  else if (c =? 181)%N then [924%N]                            (* micro sign *)
  else if (c =? 223)%N then [83%N; 83%N]                        (* sharp s *)
  else if (224 <=? c)%N && (c <=? 254)%N && negb (c =? 247)%N
       then [(c - 32)%N]                                        (* à-þ but ÷ *)
  else if (c =? 255)%N then [376%N]                            (* ÿ *)
  else if (c <? 256)%N then [c]
  else upper_ext c.

Definition upper (s : str) : str := flat_map upper_cp s.
End Upper.

End PyStr.
Import PyStr.

(* ================================================================== *)
(** ** Subject areas and [categorizar_area] *)

Inductive area : Type :=
| Matematica | Fisica | Eletronica | SistemasDePotencia | Praticas | Outras.

(** The text each area stands for in the program. *)
Definition area_name (a : area) : str :=
  match a with
  | Matematica => py "Matemática"
  | Fisica => py "Física"
  | Eletronica => py "Eletrônica"
  | SistemasDePotencia => py "Sistemas de Potência"
  | Praticas => py "Práticas"
  | Outras => py "Outras"
  end.

Definition area_eqb (a b : area) : bool :=
  match a, b with
  | Matematica, Matematica | Fisica, Fisica | Eletronica, Eletronica
  | SistemasDePotencia, SistemasDePotencia | Praticas, Praticas
  | Outras, Outras => true
  | _, _ => false
  end.

(** A cell of a text column as pandas hands it to [categorizar_area]:
    text, or the float NaN of an empty cell.  (A numeric cell is the text
    Python's [str] renders it as.) *)
Inductive cell : Type :=
| Text (s : str)
| Empty.

(** [str(v)] *)
Definition py_str (v : cell) : str :=
  match v with
  | Text s => s
  | Empty => py "nan"
  end.

(** [row.get(key, '')]: [None] is a column the row does not have. *)
Definition get_or_empty (v : option cell) : cell :=
  match v with
  | Some c => c
  | None => Text []
  end.

(** The dictionary [mapeamento], in insertion order. *)
Definition mapeamento : list (str * area) :=
  [ (py "MAT", Matematica); (py "FIS", Fisica); (py "CEL", Eletronica);
    (py "ENE", SistemasDePotencia); (py "CÁLCULO", Matematica);
    (py "FÍSICA", Fisica); (py "LABORATÓRIO", Praticas) ].

(** The loop over [mapeamento.items()]. *)
Fixpoint primeira_regra (codigo disciplina : str) (items : list (str * area))
  : area :=
  match items with
  | [] => Outras
  | (key, value) :: items' =>
      if startswith codigo key || contains disciplina key then value
      else primeira_regra codigo disciplina items'
  end.

Section Categorizar.
Variable upper_ext : N -> list N.

Definition categorizar_area (Codigo Disciplina : option cell) : area :=
  let codigo := upper upper_ext (py_str (get_or_empty Codigo)) in
  let disciplina := upper upper_ext (py_str (get_or_empty Disciplina)) in
  primeira_regra codigo disciplina mapeamento.
End Categorizar.

(** A rule of [mapeamento] applies to a row when its key starts the
    (upper-cased) code or occurs in the (upper-cased) discipline name. *)
Definition aplica (codigo disciplina key : str) : Prop :=
  (exists t, codigo = key ++ t) \/ (exists a b, disciplina = a ++ key ++ b).

(** An upper-case table that leaves the code points from U+0100 on as they
    are, for examples on Latin-1 text. *)
Definition no_ext (c : N) : list N := [c].

(* ================================================================== *)
(** ** Numbers: float64 and int64 columns *)

Module Num.

Definition min_int64 : Z := - 2 ^ 63.
Definition max_int64 : Z := 2 ^ 63 - 1.

(** Sums of an [int64] column wrap around. *)
Definition wrap64 (z : Z) : Z := ((z + 2 ^ 63) mod 2 ^ 64 - 2 ^ 63)%Z.

(** [int64] to [float64]: the nearest float, ties to even. *)
Definition float_of_int (z : Z) : float :=
  SF2Prim (binary_normalize prec emax z 0 false).

(** The signed mantissa of a finite float. *)
Definition signed (s : bool) (m : positive) : Z :=
  if s then Z.neg m else Z.pos m.

(** The exact value of a float; [None] for NaN and the infinities. *)
Definition float_val (x : float) : option Q :=
  match Prim2SF x with
  | S754_zero _ => Some 0%Q
  | S754_finite s m e =>
      Some (if (0 <=? e)%Z then inject_Z (signed s m * 2 ^ e)
            else signed s m # Z.to_pos (2 ^ (- e)))
  | S754_infinity _ | S754_nan => None
  end.

(** [floor (log2 x)] for [x > 0]. *)
Definition Qlog2 (x : Q) : Z :=
  let l := (Z.log2 (Qnum x) - Z.log2 (Z.pos (Qden x)))%Z in
  if Qle_bool (2 ^ l) x then l else (l - 1)%Z.

(** The nearest integer, ties to even. *)
Definition round_half_even (x : Q) : Z :=
  let f := Qfloor x in
  match Qcompare (x - inject_Z f) (1 # 2) with
  | Lt => f
  | Gt => (f + 1)%Z
  | Eq => if Z.even f then f else (f + 1)%Z
  end.

(** The exponent of the last bit of the binary64 numbers of the magnitude
    of [x]: 53 bits, and no exponent below -1074. *)
Definition ulp_exp (x : Q) : Z := Z.max (Qlog2 (Qabs x) - 52) (-1074).

(** The binary64 number nearest to [x], ties to even: the result of a
    float operation whose exact result is [x].  (Without the overflow to
    infinity: what is rounded below is at most the hours, or 1, in
    magnitude.) *)
Definition round_float64 (x : Q) : Q :=
  let x := Qred x in
  if Qeq_bool x 0 then 0%Q
  else (inject_Z (round_half_even (x / 2 ^ ulp_exp x)) * 2 ^ ulp_exp x)%Q.

Definition Qltb (x y : Q) : bool := negb (Qle_bool y x).

(** Rounding towards zero. *)
Definition Qtrunc (x : Q) : Z := if Qle_bool 0 x then Qfloor x else Qceiling x.

(** C's [fmod]: the remainder of the division truncated towards zero; it
    is exact. *)
Definition fmod (a b : Q) : Q := (a - inject_Z (Qtrunc (a / b)) * b)%Q.

(** The quotient in numpy's [npy_divmod]: [div = (a - mod) / b], and
    [div -= 1.0] when the remainder is not zero and differs in sign from
    the divisor. *)
Definition npy_divmod_div (a b : Q) : Q :=
  let m := fmod a b in
  let div := round_float64 (round_float64 (a - m) / b)%Q in
  if negb (Qeq_bool m 0) && negb (Bool.eqb (Qltb b 0) (Qltb m 0))
  then round_float64 (div - 1)%Q else div.

(** The end of [npy_divmod], "snap quotient to nearest integral value":
    [floordiv = floor(div)], and one more when [div - floordiv > 0.5]. *)
Definition npy_snap (div : Q) : Q :=
  if Qeq_bool div 0 then 0%Q
  else
    let floordiv := inject_Z (Qfloor div) in
    if Qltb (1 # 2) (round_float64 (div - floordiv)%Q)
    then round_float64 (floordiv + 1)%Q else floordiv.

(** [a // b] on [float64], for finite [a] and [b <> 0]: numpy's
    [npy_floor_divide], each float operation being the exact one followed
    by [round_float64]. *)
Definition npy_floor_divide (a b : Q) : Q := npy_snap (npy_divmod_div a b).

(** The cast of a finite [float64] to [int64]: towards zero, and
    [min_int64] for a value outside [int64] (the x86-64 conversion). *)
Definition astype_int64 (x : Q) : Z :=
  let z := Qtrunc x in
  if (min_int64 <=? z)%Z && (z <=? max_int64)%Z then z else min_int64.

(** [(x // d).astype(int)] on a [float64] column, for an integer [d] that
    is a [float64] (15 in the program).  The floor division of NaN or of
    an infinity is NaN, a division by zero is NaN or infinite, and pandas
    refuses to cast either ([IntCastingNaNError], here [None]). *)
Definition floordiv_astype_int (x : float) (d : Z) : option Z :=
  match float_val x with
  | Some a =>
      if (d =? 0)%Z then None
      else Some (astype_int64 (npy_floor_divide a (inject_Z d)))
  | None => None
  end.

(** [numpy.rint]: the nearest integer, ties to even, as a float. *)
Definition rint (x : float) : float :=
  match Prim2SF x with
  | S754_finite s m e =>
      if (0 <=? e)%Z then x
      else
        let d := (2 ^ (- e))%Z in
        let q := (Z.pos m / d)%Z in
        let r := (Z.pos m mod d)%Z in
        let q' :=
          match (2 * r ?= d)%Z with
          | Lt => q
          | Gt => (q + 1)%Z
          | Eq => if Z.even q then q else (q + 1)%Z
          end in
        if (q' =? 0)%Z then (if s then (-0)%float else 0%float)
        else float_of_int (if s then - q' else q')
  | _ => x
  end.

(** [Series.round(2)]: numpy scales by 100, rounds and scales back. *)
Definition round2 (x : float) : float := (rint (x * 100) / 100)%float.


(** Adding from left to right. *)
Definition soma_seq (acc : float) (l : list float) : float :=
  fold_left (fun a x => (a + x)%float) l acc.

(** The loop of the eight running sums of numpy's [pairwise_sum]: [k] more
    groups of eight values are added to them, each value to the sum of its
    place. *)
Fixpoint soma_oito (k : nat) (r l : list float) : list float * list float :=
  match k with
  | O => (r, l)
  | S k' =>
      soma_oito k'
        (map (fun p => (fst p + snd p)%float) (combine r (firstn 8 l)))
        (skipn 8 l)
  end.

(** A block of 8 to 128 values: the eight running sums over its groups of
    eight, added two by two, then the values left over one by one. *)
Definition soma_bloco (l : list float) : float :=
  let '(r, resto) :=
    soma_oito (List.length l / 8 - 1) (firstn 8 l) (skipn 8 l) in
  match r with
  | [r0; r1; r2; r3; r4; r5; r6; r7] =>
      soma_seq (((r0 + r1) + (r2 + r3)) + ((r4 + r5) + (r6 + r7)))%float resto
  | _ => 0%float
  end.

(** numpy's [pairwise_sum]: fewer than 8 values are added from left to
    right, up to 128 as a block, and more are split in two parts, the
    first of a multiple of eight values.  [fuel] bounds the depth of the
    splitting; the number of values is enough. *)
Fixpoint pairwise_sum (fuel : nat) (l : list float) : float :=
  let n := List.length l in
  if (n <? 8)%nat then soma_seq 0 l
  else if (n <=? 128)%nat then soma_bloco l
  else
    match fuel with
    | O => 0%float
    | S fuel' =>
        let n2 := (n / 2 - (n / 2) mod 8)%nat in
        (pairwise_sum fuel' (firstn n2 l)
         + pairwise_sum fuel' (skipn n2 l))%float
    end.

(** [Series.sum()] of a [float64] column: NaN entries count as zero, and
    numpy adds the column to the identity 0 by [pairwise_sum]. *)
Definition nansum (l : list float) : float :=
  (0 + pairwise_sum (List.length l)
         (map (fun x => if is_nan x then 0%float else x) l))%float.

(** [Series.sum()] of an [int64] column. *)
Definition isum (l : list Z) : Z :=
  fold_left (fun acc x => wrap64 (acc + x)) l 0%Z.

(** [Series.cumsum()] of an [int64] column. *)
Fixpoint cumsum_from (acc : Z) (l : list Z) : list Z :=
  match l with
  | [] => []
  | x :: l' => let acc' := wrap64 (acc + x) in acc' :: cumsum_from acc' l'
  end.
Definition cumsum (l : list Z) : list Z := cumsum_from 0 l.

End Num.
Import Num.

(* ================================================================== *)
(** ** [load_data] *)

(** A cell of a numeric column of the CSV file: a number, as the
    [float64] it is read as, or something [pd.to_numeric] cannot read as
    one (unparsable text, an empty cell).  The columns [Nota] and [Horas]
    are [float64] columns, as pandas holds a column with a decimal point or
    an empty cell in it.  (A column of integer literals only is held as
    [int64], and its floor division is the integer one; the two agree
    while the hours are within [2^53] in magnitude.) *)
Inductive num_cell : Type :=
| Numeric (f : float)
| NotNumeric.

(** [pd.to_numeric(col, errors='coerce')] *)
Definition to_numeric_coerce (c : num_cell) : float :=
  match c with
  | Numeric f => f
  | NotNumeric => nan
  end.

(** [col.fillna(0)] *)
Definition fillna0 (f : float) : float := if is_nan f then 0%float else f.

(** A line of [historico.csv] after the columns are renamed, in a table
    that has the columns [Nota], [Horas] and a column [Ano] of integers. *)
Record csv_row : Type := {
  csv_Codigo : option cell;
  csv_Disciplina : option cell;
  csv_Nota : num_cell;
  csv_Horas : num_cell;
  csv_Ano : Z
}.

(** A row of the data frame [load_data] returns. *)
Record row : Type := {
  Codigo : option cell;
  Disciplina : option cell;
  Nota : float;
  Horas : float;
  Ano : Z;
  Area : area;
  Creditos : Z
}.

(** What [pd.read_csv('historico.csv')] finds. *)
Inductive arquivo : Type :=
| Ilegivel         (* no file, or a file [pd.read_csv] cannot read as a table *)
| SemNotaOuHoras   (* a table without the column Nota or the column Horas
                      (or with the hours twice, as Horas/Aula and as Horas) *)
| Tabela (linhas : list csv_row).

(** All results or none, as an exception anywhere aborts the whole. *)
Fixpoint traverse {A B : Type} (f : A -> option B) (l : list A)
  : option (list B) :=
  match l with
  | [] => Some []
  | a :: l' =>
      match f a, traverse f l' with
      | Some b, Some bs => Some (b :: bs)
      | _, _ => None
      end
  end.

Section LoadData.
Variable upper_ext : N -> list N.

(** The body of the [try] block, one row at a time. *)
Definition normalizar (r : csv_row) : option row :=
  let nota := fillna0 (to_numeric_coerce (csv_Nota r)) in
  let horas := fillna0 (to_numeric_coerce (csv_Horas r)) in
  let area := categorizar_area upper_ext (csv_Codigo r) (csv_Disciplina r) in
  match floordiv_astype_int horas 15 with
  | Some c =>
      Some {| Codigo := csv_Codigo r; Disciplina := csv_Disciplina r;
              Nota := nota; Horas := horas; Ano := csv_Ano r;
              Area := area; Creditos := c |}
  | None => None
  end.

(** The [try] block: [None] stands for an exception.  [pd.read_csv]
    raises on a file it cannot read, [df['Nota']] and [df['Horas']] raise
    [KeyError] on a table without the column ([pd.to_numeric] raises on
    the two columns a doubled [Horas] gives), and the cast raises on
    infinite hours. *)
Definition try_load_data (f : arquivo) : option (list row) :=
  match f with
  | Ilegivel => None
  | SemNotaOuHoras => None
  | Tabela csv => traverse normalizar csv
  end.

(** [load_data]: any exception is reported and an empty frame returned. *)
Definition load_data (f : arquivo) : list row :=
  match try_load_data f with
  | Some df => df
  | None => []
  end.
End LoadData.

(* ================================================================== *)
(** ** The academic tab of [main] *)

(** [col.isin(values)] *)
Definition isin_ano (x : Z) (values : list Z) : bool :=
  existsb (Z.eqb x) values.
Definition isin_area (x : area) (values : list area) : bool :=
  existsb (area_eqb x) values.

(** [df[df['Ano'].isin(anos) & df['Area'].isin(areas)]] *)
Definition filtrar (anos : list Z) (areas : list area) (df : list row)
  : list row :=
  filter (fun r => isin_ano (Ano r) anos && isin_area (Area r) areas) df.

(** Adding the credits of one row to the group of its year; the groups are
    kept in ascending order of the year. *)
Fixpoint somar_no_ano (ano c : Z) (g : list (Z * Z)) : list (Z * Z) :=
  match g with
  | [] => [(ano, wrap64 (0 + c))]
  | (a, s) :: g' =>
      if (ano <? a)%Z then (ano, wrap64 (0 + c)) :: g
      else if (ano =? a)%Z then (a, wrap64 (s + c)) :: g'
      else (a, s) :: somar_no_ano ano c g'
  end.

(** [df.groupby('Ano', as_index=False).agg({'Creditos': 'sum'})] *)
Definition groupby_Ano_sum (df : list row) : list (Z * Z) :=
  fold_left (fun g r => somar_no_ano (Ano r) (Creditos r) g) df [].

(** A row of [df_acumulado]. *)
Record acumulado : Type := {
  ac_Ano : Z;
  ac_Creditos : Z;
  ac_Acumulado : Z;
  ac_Pct : float
}.

(** [df_acumulado['Creditos'].sum()] *)
Definition total_creditos (filtered : list row) : Z :=
  isum (map snd (groupby_Ano_sum filtered)).

(** [(Acumulado / total_creditos * 100).round(2)] *)
Definition pct_acumulado (acc total : Z) : float :=
  round2 (float_of_int acc / float_of_int total * 100)%float.

Definition df_acumulado (filtered : list row) : list acumulado :=
  let g := groupby_Ano_sum filtered in
  let total := total_creditos filtered in
  map (fun x : Z * Z * Z =>
         let '(ano, c, acc) := x in
         {| ac_Ano := ano; ac_Creditos := c; ac_Acumulado := acc;
            ac_Pct := pct_acumulado acc total |})
      (combine g (cumsum (map snd g))).

(** [ira]: the weighted mean of the grades, guarded against a zero total
    (the [else] branch is the integer [0], shown as [0.00]). *)
Definition ira (filtered : list row) : float :=
  let total := total_creditos filtered in
  if (0 <? total)%Z
  then (nansum (map (fun r => Nota r * float_of_int (Creditos r)) filtered)
        / float_of_int total)%float
  else 0%float.

(** Insertion before the first row whose grade is not greater. *)
Fixpoint inserir_desc (r : row) (l : list row) : list row :=
  match l with
  | [] => [r]
  | x :: l' =>
      if (Nota r <? Nota x)%float then x :: inserir_desc r l'
      else r :: x :: l'
  end.

(** A stable sort by descending grade. *)
Definition sort_desc (l : list row) : list row :=
  fold_right inserir_desc [] l.

(** The rows in descending order of the grade, rows of equal grades in
    their order, rows without a grade (NaN) last. *)
Definition por_nota_desc (df : list row) : list row :=
  sort_desc (filter (fun r => negb (is_nan (Nota r))) df)
  ++ filter (fun r => is_nan (Nota r)) df.

(** [df.nlargest(n, 'Nota')], with the default [keep='first']: the first
    [n] rows in descending order of the grade, the first occurrences first
    among equal grades. *)
Definition nlargest (n : nat) (df : list row) : list row :=
  firstn n (por_nota_desc df).

(** A frame has the column [Disciplina] when its rows have the cell. *)
Definition tem_Disciplina (df : list row) : bool :=
  forallb (fun r => match Disciplina r with Some _ => true | None => false end)
          df.

(** [filtered_df.nlargest(10, 'Nota')[['Disciplina','Nota','Creditos','Area']]]:
    [KeyError] (here [None]) on a frame without the column [Disciplina]. *)
Definition top_disciplinas (filtered : list row)
  : option (list (option cell * float * Z * area)) :=
  let top := nlargest 10 filtered in
  if tem_Disciplina top
  then Some (map (fun r => (Disciplina r, Nota r, Creditos r, Area r)) top)
  else None.

(** What the academic tab shows. *)
Record painel : Type := {
  p_acumulado : list acumulado;
  p_total : Z;
  p_ira : float;
  p_top : list (option cell * float * Z * area)
}.

Inductive tab1_view : Type :=
| SemDados                (* "Nenhum dado disponível para análise" *)
| SemDadosFiltrados       (* "Nenhum dado encontrado com os filtros selecionados" *)
| Painel (p : painel)
| PainelKeyError (acum : list acumulado) (total : Z) (ira_atual : float).
                          (* the metrics and the charts, then [KeyError] at
                             the table of the top ten *)

Definition tab1 (df : list row) (anos : list Z) (areas : list area)
  : tab1_view :=
  match df with
  | [] => SemDados
  | _ :: _ =>
      match filtrar anos areas df with
      | [] => SemDadosFiltrados
      | filtered =>
          match top_disciplinas filtered with
          | Some top =>
              Painel {| p_acumulado := df_acumulado filtered;
                        p_total := total_creditos filtered;
                        p_ira := ira filtered;
                        p_top := top |}
          | None =>
              PainelKeyError (df_acumulado filtered) (total_creditos filtered)
                             (ira filtered)
          end
      end
  end.

(* ================================================================== *)
(** ** [create_career_assessment] and the career tab *)

(** A row of the comparison frame. *)
Record comparacao : Type := {
  Competencia : str;
  SuaAvaliacao : float;
  MediaDeMercado : float
}.

(** [benchmark['Competência']] and [benchmark['Benchmark']] *)
Definition benchmark_Competencia : list str :=
  [ py "Engenharia Elétrica"; py "Power Line Communication";
    py "Gestão de Projetos"; py "Atendimento ao Cliente";
    py "Análise de Dados"; py "Vendas Técnicas"; py "Automação Industrial";
    py "Liderança de Equipes"; py "Sustentabilidade Energética";
    py "Transformação Digital" ].

Definition benchmark_Benchmark : list float :=
  [ 3.8; 3.2; 4.1; 3.5; 3.9; 3.4; 4.0; 3.7; 4.2; 3.6 ]%float.

(** Rows of three columns of one length. *)
Fixpoint zip3 (c1 : list str) (c2 c3 : list float) : list comparacao :=
  match c1, c2, c3 with
  | a :: c1', b :: c2', c :: c3' =>
      {| Competencia := a; SuaAvaliacao := b; MediaDeMercado := c |}
      :: zip3 c1' c2' c3'
  | _, _, _ => []
  end.

(** [pd.DataFrame({...})] of three columns: [ValueError] ("All arrays must
    be of the same length", here [None]) unless the lengths agree. *)
Definition DataFrame3 (c1 : list str) (c2 c3 : list float)
  : option (list comparacao) :=
  if (List.length c1 =? List.length c2)%nat
     && (List.length c2 =? List.length c3)%nat
  then Some (zip3 c1 c2 c3)
  else None.

(** The dictionary [ratings], as its items in insertion order.  Of what the
    function returns only the frame is kept (the figures are drawn from it). *)
Definition create_career_assessment (ratings : list (str * float))
  : option (list comparacao) :=
  DataFrame3 (map fst ratings) (map snd ratings) benchmark_Benchmark.

(** A row of the comparison frame with the column [Diferencial]. *)
Record diferencial : Type := {
  linha : comparacao;
  Diferencial : float
}.

(** [df['Diferencial'] = df['Sua Avaliação'] - df['Média de Mercado']] *)
Definition com_diferencial (df : list comparacao) : list diferencial :=
  map (fun r => {| linha := r;
                   Diferencial := (SuaAvaliacao r - MediaDeMercado r)%float |})
      df.

(** [df[df['Diferencial'] > 0.5]] *)
Definition strengths (df : list diferencial) : list diferencial :=
  filter (fun r => (0.5 <? Diferencial r)%float) df.

(** The ratings a session starts with. *)
Definition ratings_iniciais : list (str * float) :=
  map (fun c => (c, 3.0%float)) benchmark_Competencia.

(* ================================================================== *)
(** ** Vocabulary of the statements *)

(** [Subseq l1 l2]: [l1] is [l2] with some elements left out, the others in
    their order. *)
Inductive Subseq {A : Type} : list A -> list A -> Prop :=
| Subseq_nil : Subseq [] []
| Subseq_skip x l1 l2 : Subseq l1 l2 -> Subseq l1 (x :: l2)
| Subseq_keep x l1 l2 : Subseq l1 l2 -> Subseq (x :: l1) (x :: l2).

(** Ten ratings whose first competency is not one of the benchmark's. *)
Definition ratings_culinaria : list (str * float) :=
  (py "Culinária", 5.0%float) :: tl ratings_iniciais.

(** The initial ratings with the first two competencies exchanged. *)
Definition ratings_trocadas : list (str * float) :=
  match ratings_iniciais with
  | a :: b :: rest => b :: a :: rest
  | l => l
  end.

(** A frame row for the examples. *)
Definition comp (name : string) (sua media : float) : comparacao :=
  {| Competencia := py name; SuaAvaliacao := sua; MediaDeMercado := media |}.

(** A line of the CSV file for the examples. *)
Definition linha_csv (nota horas : num_cell) : csv_row :=
  {| csv_Codigo := Some (Text (py "ENE200"));
     csv_Disciplina := Some (Text (py "Circuitos"));
     csv_Nota := nota; csv_Horas := horas; csv_Ano := 2020 |}.

(** The hours of the line are [inf] or [-inf] (as [pd.to_numeric] reads
    the text "inf"). *)
Definition horas_infinitas (r : csv_row) : bool :=
  match csv_Horas r with
  | Numeric h => is_infinity h
  | NotNumeric => false
  end.

(** The sum of a list of integers, without wrap-around. *)
Definition zsum (l : list Z) : Z := fold_right Z.add 0%Z l.

(** A normalised row for the examples. *)
Definition disciplina (nome : string) (nota : float) (creditos ano : Z) : row :=
  {| Codigo := None; Disciplina := Some (Text (py nome)); Nota := nota;
     Horas := float_of_int (15 * creditos); Ano := ano; Area := Outras;
     Creditos := creditos |}.

(** The exact value of the float [x] is [q]. *)
Definition mesmo_valor (x : float) (q : Q) : bool :=
  match float_val x with
  | Some v => Qeq_bool v q
  | None => false
  end.

(** A float that is NaN or infinite. *)
Definition not_finite (x : float) : Prop :=
  match Prim2SF x with
  | S754_nan | S754_infinity _ => True
  | _ => False
  end.

(** [a] may stand before [b] in descending order of the grade. *)
Definition nao_menor (a b : row) : Prop := (Nota a <? Nota b)%float = false.

(** The rows with grade [g]. *)
Definition com_nota (g : float) (l : list row) : list row :=
  filter (fun r => (Nota r =? g)%float) l.

(** Twelve disciplines with different grades. *)
Definition doze_disciplinas : list row :=
  [ disciplina "D01" 7.0 4 2019; disciplina "D02" 9.5 4 2019;
    disciplina "D03" 3.0 2 2019; disciplina "D04" 8.0 4 2019;
    disciplina "D05" 10.0 6 2020; disciplina "D06" 6.5 4 2020;
    disciplina "D07" 5.0 2 2020; disciplina "D08" 9.0 4 2020;
    disciplina "D09" 4.0 4 2021; disciplina "D10" 8.5 6 2021;
    disciplina "D11" 7.5 4 2021; disciplina "D12" 2.0 2 2021 ].

(* ================================================================== *)
(** ** The selections of the academic tab *)

(** [col.unique()]: the values of a column in the order of their first
    appearance. *)
Fixpoint unique {A : Type} (eqb : A -> A -> bool) (l : list A) : list A :=
  match l with
  | [] => []
  | x :: l' => x :: filter (fun y => negb (eqb y x)) (unique eqb l')
  end.

(** The options (and the default selection) of the two [st.multiselect]. *)
Definition opcoes_anos (df : list row) : list Z := unique Z.eqb (map Ano df).
Definition opcoes_areas (df : list row) : list area :=
  unique area_eqb (map Area df).

(** The credits of the rows of one year, without wrap-around. *)
Definition creditos_do_ano (a : Z) (df : list row) : Z :=
  zsum (map Creditos (filter (fun r => (Ano r =? a)%Z) df)).

(* ================================================================== *)
(** ** The session of the career tab *)

Definition str_eqb (a b : str) : bool :=
  if list_eq_dec N.eq_dec a b then true else false.

(** [d[k]]: [None] stands for [KeyError]. *)
Fixpoint dict_get (k : str) (d : list (str * float)) : option float :=
  match d with
  | [] => None
  | (k', v) :: d' => if str_eqb k k' then Some v else dict_get k d'
  end.

(** [d[k] = v]: a key of the dictionary keeps its place, a new key goes
    last. *)
Fixpoint dict_set (k : str) (v : float) (d : list (str * float))
  : list (str * float) :=
  match d with
  | [] => [(k, v)]
  | (k', v') :: d' =>
      if str_eqb k k' then (k', v) :: d' else (k', v') :: dict_set k v d'
  end.

(** [st.slider(..., value=default, key=...)]: the position the user left
    the widget at, or [default] for a widget drawn for the first time. *)
Definition slider (widget : option float) (default : float) : float :=
  match widget with
  | Some v => v
  | None => default
  end.

(** The loop over [competencies]: each rating is replaced by the value of
    its slider.  [widgets] gives the state of the slider of each
    competency. *)
Fixpoint ler_sliders (widgets : str -> option float) (competencies : list str)
  (ratings : list (str * float)) : option (list (str * float)) :=
  match competencies with
  | [] => Some ratings
  | competence :: rest =>
      match dict_get competence ratings with
      | Some atual =>
          ler_sliders widgets rest
            (dict_set competence (slider (widgets competence) atual) ratings)
      | None => None
      end
  end.

(** What a run of the career tab ends in. *)
Inductive tab2_result : Type :=
| Tab2KeyError
| Tab2ValueError
| Tab2Ok (ratings : list (str * float)) (df_comparison : list diferencial)
         (destaques : list diferencial).

(** [st.session_state.ratings] once the tab has initialised it ([None]: no
    ['ratings'] in the session state yet). *)
Definition ratings_da_sessao (session : option (list (str * float)))
  : list (str * float) :=
  match session with
  | None => ratings_iniciais
  | Some r => r
  end.

(** A run of the career tab on the session state. *)
Definition tab2 (widgets : str -> option float)
  (session : option (list (str * float))) : tab2_result :=
  let ratings := ratings_da_sessao session in
  match ler_sliders widgets (map fst ratings) ratings with
  | None => Tab2KeyError
  | Some ratings' =>
      match create_career_assessment ratings' with
      | None => Tab2ValueError
      | Some df =>
          let df_comparison := com_diferencial df in
          Tab2Ok ratings' df_comparison (strengths df_comparison)
      end
  end.

(** The session states the program reaches: none at first, then the
    ratings each run leaves. *)
Inductive sessao : option (list (str * float)) -> Prop :=
| sessao_nova : sessao None
| sessao_apos widgets s ratings dfc dest :
    sessao s -> tab2 widgets s = Tab2Ok ratings dfc dest ->
    sessao (Some ratings).

(** The state of the groups after the rows [df]. *)
Definition grupos_de (g : list (Z * Z)) (df : list row) : Prop :=
  StronglySorted Z.lt (map fst g) /\
  (forall r, In r df -> In (Ano r) (map fst g)) /\
  (forall a s, In (a, s) g ->
     s = wrap64 (creditos_do_ano a df) /\ exists r, In r df /\ Ano r = a).

(** The positions of a slider: from 0 to 5 in steps of 0.5. *)
Definition posicoes_slider : list float :=
  [ 0; 0.5; 1; 1.5; 2; 2.5; 3; 3.5; 4; 4.5; 5 ]%float.

(** For each competency of the benchmark, in its order, the lowest slider
    position that makes it a strength. *)
Definition limiar_destaque : list float :=
  [ 4.5; 4; 5; 4.5; 4.5; 4; 5; 4.5; 5; 4.5 ]%float.

(** [a] stands before [b] in descending order: the grade of [b] is at most
    that of [a]. *)
Definition nota_maior_ou_igual (a b : row) : Prop :=
  (Nota b <=? Nota a)%float = true.

(** Every competency rated 4.5. *)
Definition ratings_4_5 : list (str * float) :=
  map (fun c => (c, 4.5%float)) benchmark_Competencia.

(* ================================================================== *)
(** * Properties *)

(** ** Text matching *)

Lemma startswith_iff (s k : str) :
  startswith s k = true <-> exists t, s = k ++ t.
Proof.
  revert s; induction k as [|a k IH]; intros s; simpl.
  - split; [intros _; now exists s | reflexivity].
  - destruct s as [|b s].
    + split; [discriminate | intros [t Ht]; discriminate].
    + rewrite andb_true_iff, N.eqb_eq, IH. split.
      * intros [-> [t ->]]. now exists t.
      * intros [t Ht]. injection Ht as -> ->. split; [reflexivity | now exists t].
Qed.

Lemma contains_iff (s k : str) :
  contains s k = true <-> exists a b, s = a ++ k ++ b.
Proof.
  induction s as [|c s IH].
  - cbn [contains]. rewrite orb_false_r, startswith_iff. split.
    + intros [t Ht]. now exists [], t.
    + intros [a [b E]]. destruct a; [now exists b | discriminate].
  - cbn [contains]. rewrite orb_true_iff, startswith_iff, IH. split.
    + intros [[t Ht] | [a [b E]]].
      * now exists [], t.
      * exists (c :: a), b. now rewrite E.
    + intros [a [b E]]. destruct a as [|x a].
      * left. now exists b.
      * right. injection E as _ E. now exists a, b.
Qed.

Lemma aplica_iff (codigo disciplina key : str) :
  startswith codigo key || contains disciplina key = true
  <-> aplica codigo disciplina key.
Proof.
  unfold aplica. now rewrite orb_true_iff, startswith_iff, contains_iff.
Qed.

(** The loop returns the value of the first rule that applies. *)
Lemma primeira_regra_hit codigo disciplina pre key value post :
  Forall (fun kv => ~ aplica codigo disciplina (fst kv)) pre ->
  aplica codigo disciplina key ->
  primeira_regra codigo disciplina (pre ++ (key, value) :: post) = value.
Proof.
  induction 1 as [|[k v] pre Hk _ IH]; intros Hit; simpl.
  - apply aplica_iff in Hit. now rewrite Hit.
  - destruct (startswith codigo k || contains disciplina k) eqn:E.
    + apply aplica_iff in E. now elim Hk.
    + now apply IH.
Qed.

Lemma primeira_regra_miss codigo disciplina items :
  Forall (fun kv => ~ aplica codigo disciplina (fst kv)) items ->
  primeira_regra codigo disciplina items = Outras.
Proof.
  induction 1 as [|[k v] items Hk _ IH]; simpl; [reflexivity|].
  destruct (startswith codigo k || contains disciplina k) eqn:E; [|exact IH].
  apply aplica_iff in E. now elim Hk.
Qed.

Section CategorizarProps.
Variable upper_ext : N -> list N.

Let up (v : option cell) : str := upper upper_ext (py_str (get_or_empty v)).

(** C1 (as amended).  [categorizar_area] tries the seven keys in the order
    MAT, FIS, CEL, ENE, CÁLCULO, FÍSICA, LABORATÓRIO on the upper-cased
    fields; a key applies when it starts the code OR occurs in the
    discipline name, whichever kind of key it is; the first key that
    applies gives the area, and no key gives Outras.  Rows whose fields
    agree up to case get the same area.  A code starting with FIS with a
    name containing MAT is Matemática. *)
Theorem categorizar_area_first_rule (Codigo Disciplina : option cell) :
  let hit k := aplica (up Codigo) (up Disciplina) k in
  let res := categorizar_area upper_ext Codigo Disciplina in
  (hit (py "MAT") -> res = Matematica) /\
  (~ hit (py "MAT") -> hit (py "FIS") -> res = Fisica) /\
  (~ hit (py "MAT") -> ~ hit (py "FIS") -> hit (py "CEL") -> res = Eletronica) /\
  (~ hit (py "MAT") -> ~ hit (py "FIS") -> ~ hit (py "CEL") -> hit (py "ENE") ->
   res = SistemasDePotencia) /\
  (~ hit (py "MAT") -> ~ hit (py "FIS") -> ~ hit (py "CEL") -> ~ hit (py "ENE") ->
   hit (py "CÁLCULO") -> res = Matematica) /\
  (~ hit (py "MAT") -> ~ hit (py "FIS") -> ~ hit (py "CEL") -> ~ hit (py "ENE") ->
   ~ hit (py "CÁLCULO") -> hit (py "FÍSICA") -> res = Fisica) /\
  (~ hit (py "MAT") -> ~ hit (py "FIS") -> ~ hit (py "CEL") -> ~ hit (py "ENE") ->
   ~ hit (py "CÁLCULO") -> ~ hit (py "FÍSICA") -> hit (py "LABORATÓRIO") ->
   res = Praticas) /\
  (~ hit (py "MAT") -> ~ hit (py "FIS") -> ~ hit (py "CEL") -> ~ hit (py "ENE") ->
   ~ hit (py "CÁLCULO") -> ~ hit (py "FÍSICA") -> ~ hit (py "LABORATÓRIO") ->
   res = Outras) /\
  (forall Codigo' Disciplina',
      up Codigo' = up Codigo -> up Disciplina' = up Disciplina ->
      categorizar_area upper_ext Codigo' Disciplina' = res) /\
  categorizar_area upper_ext (Some (Text (py "mat101"))) Disciplina
  = Matematica /\
  categorizar_area upper_ext (Some (Text (py "XYZ")))
                   (Some (Text (py "Cálculo I"))) = Matematica /\
  categorizar_area upper_ext (Some (Text (py "FIS101")))
                   (Some (Text (py "Materiais"))) = Matematica.
Proof.
  intros hit res. subst hit res. unfold categorizar_area. fold (up Codigo) (up Disciplina).
  set (c := up Codigo). set (d := up Disciplina).
  change mapeamento with
    [ (py "MAT", Matematica); (py "FIS", Fisica); (py "CEL", Eletronica);
      (py "ENE", SistemasDePotencia); (py "CÁLCULO", Matematica);
      (py "FÍSICA", Fisica); (py "LABORATÓRIO", Praticas) ].
  repeat match goal with |- _ /\ _ => split end.
  - intros. now apply (primeira_regra_hit c d [] _ _).
  - intros. apply (primeira_regra_hit c d [_] _ _); [repeat constructor|]; assumption.
  - intros. apply (primeira_regra_hit c d [_;_] _ _); [repeat constructor|]; assumption.
  - intros. apply (primeira_regra_hit c d [_;_;_] _ _); [repeat constructor|]; assumption.
  - intros. apply (primeira_regra_hit c d [_;_;_;_] _ _); [repeat constructor|]; assumption.
  - intros. apply (primeira_regra_hit c d [_;_;_;_;_] _ _); [repeat constructor|]; assumption.
  - intros. apply (primeira_regra_hit c d [_;_;_;_;_;_] _ _); [repeat constructor|]; assumption.
  - intros. apply primeira_regra_miss; repeat constructor; assumption.
  - intros C' D' HC HD. unfold categorizar_area. fold (up C') (up D').
    now rewrite HC, HD.
  - apply (primeira_regra_hit _ _ [] _ _); [constructor|].
    left. now exists (py "101").
  - reflexivity.
  - reflexivity.
Qed.
End CategorizarProps.

(** C1, the claim as written fails: the code starts with FIS, the name only
    contains MAT, and the area is Matemática, not Física. *)
Lemma categorizar_area_name_hits_code_key :
  startswith (upper no_ext (py "FIS101")) (py "FIS") = true /\
  contains (upper no_ext (py "Materiais")) (py "MAT") = true /\
  categorizar_area no_ext (Some (Text (py "FIS101")))
                   (Some (Text (py "Materiais"))) = Matematica /\
  categorizar_area no_ext (Some (Text (py "FIS101")))
                   (Some (Text (py "Materiais"))) <> Fisica.
Proof. repeat split; discriminate. Qed.

(** ** Floats and their exact values *)

Lemma SFeqb_refl (x : spec_float) :
  SFeqb x x = match x with S754_nan => false | _ => true end.
Proof.
  destruct x as [s|s| |s m e]; unfold SFeqb; simpl; try reflexivity.
  - now destruct s.
  - rewrite Z.compare_refl, Pos.compare_cont_refl. now destruct s.
Qed.

Lemma is_nan_Prim2SF (x : float) :
  is_nan x = match Prim2SF x with S754_nan => true | _ => false end.
Proof.
  unfold is_nan. rewrite FloatAxioms.eqb_spec, SFeqb_refl.
  now destruct (Prim2SF x).
Qed.

Lemma float_val_not_nan (x : float) (v : Q) :
  float_val x = Some v -> is_nan x = false.
Proof.
  unfold float_val. rewrite is_nan_Prim2SF.
  destruct (Prim2SF x); intros H; try reflexivity; discriminate.
Qed.

Lemma fillna0_finite (x : float) (v : Q) :
  float_val x = Some v -> fillna0 x = x.
Proof.
  intros H. unfold fillna0. now rewrite (float_val_not_nan x v H).
Qed.

Lemma fillna0_not_nan (x : float) : is_nan (fillna0 x) = false.
Proof.
  unfold fillna0. destruct (is_nan x) eqn:E; [reflexivity | exact E].
Qed.

Lemma is_infinity_Prim2SF (x : float) :
  is_infinity x = match Prim2SF x with S754_infinity _ => true | _ => false end.
Proof.
  unfold is_infinity. rewrite FloatAxioms.eqb_spec, abs_spec.
  change (Prim2SF infinity) with (S754_infinity false).
  now destruct (Prim2SF x) as [s|s| |s m e].
Qed.

(** ** Rounding to binary64 *)

(** [round_float64] of the exact result against the float operations of
    the kernel, on the subtraction and the division behind the credits of
    65917998549694744 and of 1e300 hours, and on numbers that are not
    normal. *)
Example round_float64_agrees_with_floats :
  forallb
    (fun p : float * float =>
       let '(x, y) := p in
       match float_val x, float_val y with
       | Some vx, Some vy =>
           mesmo_valor (x - y) (round_float64 (vx - vy))
           && mesmo_valor (x + y) (round_float64 (vx + vy))
           && mesmo_valor (x * y) (round_float64 (vx * vy))
           && mesmo_valor (x / y) (round_float64 (vx / vy))
       | _, _ => false
       end)
    [ (65917998549694744, 4); (65917998549694736, 15); (1e300, 10);
      (1e300, 15); (-30, 15); (0.1, 0.2); (1, 3); (9007199254740993, 1);
      (1e-310, 3); (5e-324, 2); (-2.5e-308, 7) ]%float = true.
Proof. vm_compute. reflexivity. Qed.

Section Rounding.
Local Open Scope Q_scope.

Lemma pow2_pos (e : Z) : 0 < 2 ^ e.
Proof. apply Qpower_0_lt. reflexivity. Qed.

Lemma pow2_add (a b : Z) : 2 ^ (a + b) == 2 ^ a * 2 ^ b.
Proof. apply Qpower_plus. discriminate. Qed.

Lemma pow2_le (a b : Z) : (a <= b)%Z -> 2 ^ a <= 2 ^ b.
Proof. intros H. apply Qpower_le_compat_l; [exact H | discriminate]. Qed.

Lemma pow2_lt (a b : Z) : (a < b)%Z -> 2 ^ a < 2 ^ b.
Proof. intros H. apply Qpower_lt_compat_l; [exact H | reflexivity]. Qed.

Lemma pow2_le_inv (a b : Z) : 2 ^ a <= 2 ^ b -> (a <= b)%Z.
Proof. intros H. apply (Qpower_le_compat_l_inv 2); [exact H | reflexivity]. Qed.

Lemma pow2_Z (n : Z) : (0 <= n)%Z -> 2 ^ n == inject_Z (2 ^ n).
Proof. intros H. now rewrite Zpower_Qpower. Qed.

Lemma Qlog2_spec (x : Q) :
  0 < x -> 2 ^ Qlog2 x <= x /\ x < 2 ^ (Qlog2 x + 1).
Proof.
  intros Hx. destruct x as [n d].
  assert (Hn : (0 < n)%Z).
  { unfold Qlt in Hx. simpl in Hx. lia. }
  unfold Qlog2. cbn [Qnum Qden].
  set (ln := Z.log2 n). set (ld := Z.log2 (Z.pos d)).
  destruct (Z.log2_spec n Hn) as [N1 N2]. fold ln in N1, N2.
  destruct (Z.log2_spec (Z.pos d) eq_refl) as [D1 D2]. fold ld in D1, D2.
  assert (Lln : (0 <= ln)%Z) by apply Z.log2_nonneg.
  assert (Lld : (0 <= ld)%Z) by apply Z.log2_nonneg.
  assert (X : (n # d) * inject_Z (Z.pos d) == inject_Z n).
  { unfold Qeq, Qmult, inject_Z. simpl. lia. }
  assert (Up : (n # d) < 2 ^ (ln - ld + 1)).
  { apply Qmult_lt_r with (z := 2 ^ ld); [apply pow2_pos|].
    rewrite <- pow2_add. replace (ln - ld + 1 + ld)%Z with (ln + 1)%Z by lia.
    apply Qle_lt_trans with (inject_Z n).
    - rewrite <- X. apply Qmult_le_l; [exact Hx|].
      rewrite pow2_Z by lia. now rewrite <- Zle_Qle.
    - rewrite pow2_Z by lia. now rewrite <- Zlt_Qlt. }
  assert (Lo : 2 ^ (ln - ld - 1) < (n # d)).
  { apply Qmult_lt_r with (z := 2 ^ (ld + 1)); [apply pow2_pos|].
    rewrite <- pow2_add. replace (ln - ld - 1 + (ld + 1))%Z with ln by lia.
    apply Qle_lt_trans with (inject_Z n).
    - rewrite pow2_Z by lia. now rewrite <- Zle_Qle.
    - rewrite <- X. apply Qmult_lt_l; [exact Hx|].
      rewrite pow2_Z by lia. now rewrite <- Zlt_Qlt. }
  destruct (Qle_bool (2 ^ (ln - ld)) (n # d)) eqn:B.
  - apply Qle_bool_iff in B. split; [exact B | exact Up].
  - split; [now apply Qlt_le_weak|].
    replace (ln - ld - 1 + 1)%Z with (ln - ld)%Z by lia.
    apply Qnot_le_lt. intros H. apply Qle_bool_iff in H. congruence.
Qed.

Lemma Qlog2_ge (x : Q) (k : Z) : 0 < x -> 2 ^ k <= x -> (k <= Qlog2 x)%Z.
Proof.
  intros Hx H. destruct (Qlog2_spec x Hx) as [_ U].
  assert (L : 2 ^ k < 2 ^ (Qlog2 x + 1)) by (eapply Qle_lt_trans; eauto).
  apply Qpower_lt_compat_l_inv in L; [lia | reflexivity].
Qed.

Lemma Qlog2_lt (x : Q) (k : Z) : 0 < x -> x < 2 ^ k -> (Qlog2 x < k)%Z.
Proof.
  intros Hx H. destruct (Qlog2_spec x Hx) as [L _].
  assert (L' : 2 ^ Qlog2 x < 2 ^ k) by (eapply Qle_lt_trans; eauto).
  apply Qpower_lt_compat_l_inv in L'; [lia | reflexivity].
Qed.

Lemma Qlog2_le (x : Q) (k : Z) : 0 < x -> x <= 2 ^ k -> (Qlog2 x <= k)%Z.
Proof.
  intros Hx H. destruct (Qlog2_spec x Hx) as [L _].
  apply pow2_le_inv. eapply Qle_trans; eauto.
Qed.

Lemma round_half_even_int (x : Q) (k : Z) :
  x == inject_Z k -> round_half_even x = k.
Proof.
  intros E. unfold round_half_even.
  rewrite (Qfloor_comp _ _ E), Qfloor_Z.
  assert (L : x - inject_Z k < 1 # 2) by (rewrite E; ring_simplify; reflexivity).
  now rewrite (proj1 (Qlt_alt _ _) L).
Qed.

Lemma round_half_even_le (x : Q) (n : Z) :
  x <= inject_Z n -> (round_half_even x <= n)%Z.
Proof.
  intros H. unfold round_half_even.
  assert (F : (Qfloor x <= n)%Z).
  { rewrite <- (Qfloor_Z n). now apply Qfloor_resp_le. }
  destruct (Z.eq_dec (Qfloor x) n) as [E|E].
  - assert (L : x - inject_Z (Qfloor x) < 1 # 2).
    { rewrite E. apply Qle_lt_trans with 0; [|reflexivity].
      apply (Qplus_le_l _ _ (inject_Z n)). ring_simplify. exact H. }
    rewrite (proj1 (Qlt_alt _ _) L). lia.
  - destruct (x - inject_Z (Qfloor x) ?= 1 # 2); [destruct (Z.even _)| |]; lia.
Qed.

Lemma round_half_even_ge (x : Q) (n : Z) :
  inject_Z n <= x -> (n <= round_half_even x)%Z.
Proof.
  intros H. unfold round_half_even.
  assert (F : (n <= Qfloor x)%Z).
  { rewrite <- (Qfloor_Z n). now apply Qfloor_resp_le. }
  destruct (x - inject_Z (Qfloor x) ?= 1 # 2); [destruct (Z.even _)| |]; lia.
Qed.

Lemma round_float64_proper (x y : Q) :
  x == y -> round_float64 x = round_float64 y.
Proof. intros E. unfold round_float64. now rewrite (Qred_complete x y E). Qed.

Lemma round_float64_zero (x : Q) : x == 0 -> round_float64 x = 0.
Proof.
  intros E. unfold round_float64.
  assert (B : Qeq_bool (Qred x) 0 = true).
  { apply Qeq_bool_iff. now rewrite Qred_correct. }
  now rewrite B.
Qed.

Lemma round_float64_nonzero (x : Q) :
  ~ x == 0 ->
  round_float64 x
  = inject_Z (round_half_even (Qred x / 2 ^ ulp_exp (Qred x)))
    * 2 ^ ulp_exp (Qred x).
Proof.
  intros N. unfold round_float64.
  destruct (Qeq_bool (Qred x) 0) eqn:B; [|reflexivity].
  apply Qeq_bool_iff in B. rewrite Qred_correct in B. now elim N.
Qed.

(** A bound that is a multiple of the last bit is kept by the rounding. *)
Lemma round_float64_le_multiple (x : Q) (n : Z) :
  ~ x == 0 -> x <= inject_Z n * 2 ^ ulp_exp (Qred x) ->
  round_float64 x <= inject_Z n * 2 ^ ulp_exp (Qred x).
Proof.
  intros N H. rewrite (round_float64_nonzero x N).
  apply Qmult_le_compat_r; [|apply Qlt_le_weak, pow2_pos].
  rewrite <- Zle_Qle. apply round_half_even_le.
  apply Qle_shift_div_r; [apply pow2_pos|].
  apply Qle_trans with x; [|exact H]. apply Qle_lteq. right. apply Qred_correct.
Qed.

Lemma round_float64_ge_multiple (x : Q) (n : Z) :
  ~ x == 0 -> inject_Z n * 2 ^ ulp_exp (Qred x) <= x ->
  inject_Z n * 2 ^ ulp_exp (Qred x) <= round_float64 x.
Proof.
  intros N H. rewrite (round_float64_nonzero x N).
  apply Qmult_le_compat_r; [|apply Qlt_le_weak, pow2_pos].
  rewrite <- Zle_Qle. apply round_half_even_ge.
  apply Qle_shift_div_l; [apply pow2_pos|].
  apply Qle_trans with x; [exact H|]. apply Qle_lteq. right. symmetry. apply Qred_correct.
Qed.

Lemma round_float64_multiple (x : Q) (n : Z) :
  ~ x == 0 -> x == inject_Z n * 2 ^ ulp_exp (Qred x) ->
  round_float64 x == x.
Proof.
  intros N H. apply Qle_antisym.
  - rewrite H at 2. apply round_float64_le_multiple; [exact N|]. rewrite <- H. apply Qle_refl.
  - rewrite H at 1. apply round_float64_ge_multiple; [exact N|]. rewrite <- H. apply Qle_refl.
Qed.

Lemma round_float64_nonneg (x : Q) : 0 <= x -> 0 <= round_float64 x.
Proof.
  intros H. destruct (Qeq_dec x 0) as [E|N].
  - rewrite (round_float64_zero x E). apply Qle_refl.
  - pose proof (round_float64_ge_multiple x 0 N) as G.
    rewrite Qmult_0_l in G. now apply G.
Qed.

Lemma round_float64_nonpos (x : Q) : x <= 0 -> round_float64 x <= 0.
Proof.
  intros H. destruct (Qeq_dec x 0) as [E|N].
  - rewrite (round_float64_zero x E). apply Qle_refl.
  - pose proof (round_float64_le_multiple x 0 N) as G.
    rewrite Qmult_0_l in G. now apply G.
Qed.

Lemma mult_pow2 (a e : Z) :
  (e <= a)%Z -> inject_Z (2 ^ (a - e)) * 2 ^ e == 2 ^ a.
Proof.
  intros H. rewrite <- pow2_Z by lia. rewrite <- pow2_add.
  now replace (a - e + e)%Z with a by lia.
Qed.

Lemma Qabs_Qred (x : Q) : Qabs (Qred x) == Qabs x.
Proof. apply Qabs_wd, Qred_correct. Qed.

Lemma Qabs_pos_nonzero (x : Q) : ~ x == 0 -> 0 < Qabs x.
Proof.
  intros N. destruct (Qle_lt_or_eq _ _ (Qabs_nonneg x)) as [P|P]; [exact P|].
  elim N. apply Qle_antisym.
  - rewrite P. apply Qle_Qabs.
  - assert (H : - x <= 0) by (rewrite P, <- Qabs_opp; apply Qle_Qabs).
    apply Qopp_le_compat in H. now rewrite Qopp_involutive in H.
Qed.

Lemma ulp_exp_le (x : Q) (k : Z) :
  ~ x == 0 -> Qabs x <= 2 ^ k -> (-1074 <= k)%Z ->
  (ulp_exp (Qred x) <= k)%Z.
Proof.
  intros N H K. unfold ulp_exp.
  assert (P : 0 < Qabs (Qred x)) by (rewrite Qabs_Qred; now apply Qabs_pos_nonzero).
  assert (L : (Qlog2 (Qabs (Qred x)) <= k)%Z).
  { apply Qlog2_le; [exact P|]. now rewrite Qabs_Qred. }
  lia.
Qed.

(** The rounding keeps what is at most a power of two at most it. *)
Lemma round_float64_le_pow2 (x : Q) (k : Z) :
  (-1074 <= k)%Z -> x <= 2 ^ k -> round_float64 x <= 2 ^ k.
Proof.
  intros K H. destruct (Qlt_le_dec 0 x) as [P|P].
  - assert (N : ~ x == 0) by (intros E; rewrite E in P; discriminate).
    assert (A : Qabs x == x) by (apply Qabs_pos; now apply Qlt_le_weak).
    assert (E : (ulp_exp (Qred x) <= k)%Z).
    { apply ulp_exp_le; [exact N | now rewrite A | exact K]. }
    rewrite <- (mult_pow2 k _ E).
    apply round_float64_le_multiple; [exact N|]. now rewrite (mult_pow2 k _ E).
  - apply Qle_trans with 0; [now apply round_float64_nonpos|].
    apply Qlt_le_weak, pow2_pos.
Qed.

(** The rounding keeps what is at most minus a power of two at most it. *)
Lemma round_float64_le_opp_pow2 (x : Q) (k : Z) :
  (-1074 <= k)%Z -> x <= - 2 ^ k -> round_float64 x <= - 2 ^ k.
Proof.
  intros K H.
  assert (X : x < 0).
  { apply Qle_lt_trans with (- 2 ^ k); [exact H|].
    apply (Qplus_lt_l _ _ (2 ^ k)). ring_simplify. apply pow2_pos. }
  assert (N : ~ x == 0) by (intros E; rewrite E in X; discriminate).
  assert (A : Qabs (Qred x) == - x).
  { rewrite Qabs_Qred. apply Qabs_neg. now apply Qlt_le_weak. }
  assert (P : 0 < Qabs (Qred x)) by (rewrite Qabs_Qred; now apply Qabs_pos_nonzero).
  set (l := Qlog2 (Qabs (Qred x))).
  assert (Lk : (k <= l)%Z).
  { apply Qlog2_ge; [exact P|]. rewrite A.
    apply Qopp_le_compat in H. now rewrite Qopp_involutive in H. }
  destruct (Qlog2_spec _ P) as [Ll _]. fold l in Ll. rewrite A in Ll.
  assert (E : (ulp_exp (Qred x) <= l)%Z) by (unfold ulp_exp; fold l; lia).
  apply Qle_trans with (- 2 ^ l).
  - assert (M : inject_Z (- 2 ^ (l - ulp_exp (Qred x))) * 2 ^ ulp_exp (Qred x)
                == - 2 ^ l).
    { rewrite inject_Z_opp. rewrite <- (mult_pow2 l _ E). ring. }
    rewrite <- M. apply round_float64_le_multiple; [exact N|]. rewrite M.
    apply Qopp_le_compat in Ll. now rewrite Qopp_involutive in Ll.
  - apply Qopp_le_compat. now apply pow2_le.
Qed.

(** Integers of up to 53 bits are binary64 numbers. *)
Lemma round_float64_int (z : Z) :
  (Z.abs z <= 2 ^ 53)%Z -> round_float64 (inject_Z z) == inject_Z z.
Proof.
  intros H. destruct (Z.eq_dec z 0) as [->|Nz]; [reflexivity|].
  destruct (Z.eq_dec (Z.abs z) (2 ^ 53)) as [E|E].
  - assert (C : z = (2 ^ 53)%Z \/ z = (- 2 ^ 53)%Z) by lia.
    destruct C as [-> | ->]; vm_compute; reflexivity.
  - assert (N : ~ inject_Z z == 0).
    { intros Q0. apply Nz. unfold Qeq in Q0. simpl in Q0. lia. }
    assert (A : Qabs (inject_Z z) == inject_Z (Z.abs z)) by reflexivity.
    assert (U : (ulp_exp (Qred (inject_Z z)) <= 0)%Z).
    { unfold ulp_exp.
      assert (P : 0 < Qabs (Qred (inject_Z z)))
        by (rewrite Qabs_Qred; now apply Qabs_pos_nonzero).
      assert (L : (Qlog2 (Qabs (Qred (inject_Z z))) < 53)%Z).
      { apply Qlog2_lt; [exact P|]. rewrite Qabs_Qred, A.
        rewrite pow2_Z by lia. rewrite <- Zlt_Qlt. lia. }
      lia. }
    apply (round_float64_multiple _ (z * 2 ^ (0 - ulp_exp (Qred (inject_Z z)))) N).
    rewrite inject_Z_mult, <- Qmult_assoc, (mult_pow2 0 _ U).
    change (2 ^ 0) with 1. ring.
Qed.

(** ** numpy's floor division by 15 *)

Lemma Qtrunc_Z (x : Q) (z : Z) : x == inject_Z z -> Qtrunc x = z.
Proof.
  intros E. unfold Qtrunc. destruct (Qle_bool 0 x).
  - now rewrite (Qfloor_comp _ _ E), Qfloor_Z.
  - now rewrite (Qceiling_comp _ _ E), Qceiling_Z.
Qed.

Lemma Qltb_lt (x y : Q) : Qltb x y = true <-> x < y.
Proof.
  unfold Qltb. rewrite negb_true_iff. split.
  - intros H. apply Qnot_le_lt. intros L. apply Qle_bool_iff in L. congruence.
  - intros H. destruct (Qle_bool y x) eqn:B; [|reflexivity].
    apply Qle_bool_iff in B. exfalso. exact (Qlt_not_le _ _ H B).
Qed.

Lemma Qltb_ge (x y : Q) : Qltb x y = false <-> y <= x.
Proof.
  unfold Qltb. rewrite negb_false_iff. apply Qle_bool_iff.
Qed.

Lemma div15_mul (v : Q) : v / 15 * 15 == v.
Proof. field. Qed.

Lemma le_div15 (x v : Q) : x <= v / 15 -> x * 15 <= v.
Proof.
  intros H. rewrite <- (div15_mul v). apply Qmult_le_compat_r; [exact H | discriminate].
Qed.

Lemma div15_le (x v : Q) : v / 15 <= x -> v <= x * 15.
Proof.
  intros H. rewrite <- (div15_mul v) at 1.
  apply Qmult_le_compat_r; [exact H | discriminate].
Qed.

(** The remainder and the truncated quotient by 15. *)
Lemma fmod_15 (v : Q) :
  let t := Qtrunc (v / 15) in
  v - fmod v 15 == inject_Z (t * 15) /\
  (0 <= v -> t = Qfloor (v / 15) /\ (0 <= t)%Z /\ inject_Z (t * 15) <= v
             /\ 0 <= fmod v 15) /\
  (v < 0 -> t = Qceiling (v / 15) /\ (t <= 0)%Z /\ v <= inject_Z (t * 15)
            /\ fmod v 15 <= 0).
Proof.
  intros t.
  assert (F : v - fmod v 15 == inject_Z (t * 15)).
  { unfold fmod. fold t. rewrite inject_Z_mult. change (inject_Z 15) with 15. ring. }
  assert (M : fmod v 15 == v - inject_Z (t * 15)).
  { rewrite <- F. ring. }
  split; [exact F|]. split.
  - intros H.
    assert (Q0 : 0 <= v / 15) by (apply Qle_shift_div_l; [reflexivity | now rewrite Qmult_0_l]).
    assert (T : t = Qfloor (v / 15)).
    { unfold t, Qtrunc. apply Qle_bool_iff in Q0. now rewrite Q0. }
    assert (L : inject_Z (t * 15) <= v).
    { rewrite inject_Z_mult, T. change (inject_Z 15) with 15.
      apply le_div15, Qfloor_le. }
    split; [exact T|]. split; [|split; [exact L|]].
    + rewrite T. change 0%Z with (Qfloor 0). now apply Qfloor_resp_le.
    + rewrite M. apply (Qplus_le_l _ _ (inject_Z (t * 15))). ring_simplify. exact L.
  - intros H.
    assert (Q0 : v / 15 < 0) by (apply Qlt_shift_div_r; [reflexivity | now rewrite Qmult_0_l]).
    assert (T : t = Qceiling (v / 15)).
    { unfold t, Qtrunc. destruct (Qle_bool 0 (v / 15)) eqn:B; [|reflexivity].
      apply Qle_bool_iff in B. exfalso. exact (Qlt_not_le _ _ Q0 B). }
    assert (L : v <= inject_Z (t * 15)).
    { rewrite inject_Z_mult, T. change (inject_Z 15) with 15.
      apply div15_le, Qle_ceiling. }
    split; [exact T|]. split; [|split; [exact L|]].
    + rewrite T. change 0%Z with (Qceiling 0). apply Qceiling_resp_le.
      now apply Qlt_le_weak.
    + rewrite M. apply (Qplus_le_l _ _ (inject_Z (t * 15))). ring_simplify. exact L.
Qed.

Lemma Qfloor_eq (x : Q) (z : Z) :
  inject_Z z <= x -> x < inject_Z (z + 1) -> Qfloor x = z.
Proof.
  intros L U. apply Z.le_antisymm.
  - pose proof (Qfloor_le x) as F.
    assert (S : inject_Z (Qfloor x) < inject_Z (z + 1)) by (eapply Qle_lt_trans; eauto).
    rewrite <- Zlt_Qlt in S. lia.
  - rewrite <- (Qfloor_Z z). now apply Qfloor_resp_le.
Qed.

(** With a positive divisor the quotient is adjusted when the remainder
    is negative. *)
Lemma ajuste_positivo (m : Q) :
  negb (Qeq_bool m 0) && negb (Bool.eqb false (Qltb m 0)) = Qltb m 0.
Proof.
  destruct (Qltb m 0) eqn:M; simpl; [|apply andb_false_r].
  apply Qltb_lt in M. rewrite andb_true_r.
  destruct (Qeq_bool m 0) eqn:Z0; [|reflexivity].
  apply Qeq_bool_iff in Z0. rewrite Z0 in M. discriminate.
Qed.

(** Within 53 bits the quotient of [npy_divmod] is the floor. *)
Lemma npy_divmod_div_15_exact (v : Q) :
  - inject_Z (2 ^ 53) <= v -> v <= inject_Z (2 ^ 53) ->
  npy_divmod_div v 15 == inject_Z (Qfloor (v / 15)).
Proof.
  intros Lo Hi. destruct (fmod_15 v) as (F & Hpos & Hneg).
  set (t := Qtrunc (v / 15)) in *.
  assert (B : (- 2 ^ 53 <= t * 15 <= 2 ^ 53)%Z).
  { destruct (Qlt_le_dec v 0) as [Neg|Pos].
    - destruct (Hneg Neg) as (_ & T0 & L & _).
      assert (X : inject_Z (- 2 ^ 53) <= inject_Z (t * 15))
        by (eapply Qle_trans; [|exact L]; exact Lo).
      rewrite <- Zle_Qle in X. lia.
    - destruct (Hpos Pos) as (_ & T0 & L & _).
      assert (X : inject_Z (t * 15) <= inject_Z (2 ^ 53))
        by (eapply Qle_trans; [exact L|]; exact Hi).
      rewrite <- Zle_Qle in X. lia. }
  unfold npy_divmod_div.
  rewrite (round_float64_proper _ _ F).
  assert (E2 : round_float64 (inject_Z (t * 15)) / 15 == inject_Z t).
  { rewrite round_float64_int by lia. rewrite inject_Z_mult.
    change (inject_Z 15) with 15. field. }
  rewrite (round_float64_proper _ _ E2).
  assert (R : round_float64 (inject_Z t) == inject_Z t)
    by (apply round_float64_int; lia).
  change (Qltb 15 0) with false.
  rewrite ajuste_positivo.
  destruct (Qltb (fmod v 15) 0) eqn:M.
  - apply Qltb_lt in M.
    assert (Neg : v < 0).
    { apply Qnot_le_lt. intros Pos. destruct (Hpos Pos) as (_ & _ & _ & M0).
      exact (Qlt_not_le _ _ M M0). }
    destruct (Hneg Neg) as (T & _ & _ & _).
    assert (E3 : round_float64 (inject_Z t) - 1 == inject_Z (t - 1)).
    { rewrite R. unfold Z.sub. rewrite inject_Z_plus. reflexivity. }
    rewrite (round_float64_proper _ _ E3).
    rewrite round_float64_int by lia.
    apply inject_Z_injective. symmetry. apply Qfloor_eq.
    + rewrite T. apply Qlt_le_weak, Qceiling_lt.
    + replace (t - 1 + 1)%Z with t by lia.
      apply Qlt_shift_div_r; [reflexivity|].
      apply (Qplus_lt_l _ _ (- (inject_Z t * 15))).
      setoid_replace (inject_Z t * 15 + - (inject_Z t * 15)) with 0 by ring.
      setoid_replace (v + - (inject_Z t * 15)) with (fmod v 15); [exact M|].
      unfold fmod. fold t. ring.
  - rewrite R. apply inject_Z_injective. symmetry.
    destruct (Qlt_le_dec v 0) as [Neg|Pos].
    + destruct (Hneg Neg) as (T & _ & L & M0).
      assert (M1 : 0 <= fmod v 15) by now apply Qltb_ge in M.
      assert (V : v == inject_Z (t * 15)).
      { apply Qle_antisym; [exact L|].
        apply (Qplus_le_l _ _ (- inject_Z (t * 15))).
        setoid_replace (inject_Z (t * 15) + - inject_Z (t * 15)) with 0 by ring.
        setoid_replace (v + - inject_Z (t * 15)) with (fmod v 15); [exact M1|].
        unfold fmod. fold t. rewrite inject_Z_mult. change (inject_Z 15) with 15. ring. }
      rewrite <- (Qfloor_Z t). apply Qfloor_comp. rewrite V, inject_Z_mult.
      change (inject_Z 15) with 15. field.
    + now destruct (Hpos Pos) as (T & _).
Qed.

(** An integral quotient is left as it is. *)
Lemma npy_snap_int (div : Q) (q : Z) :
  div == inject_Z q -> npy_snap div == inject_Z q.
Proof.
  intros E. unfold npy_snap. destruct (Qeq_bool div 0) eqn:Z0.
  - apply Qeq_bool_iff in Z0. now rewrite <- E, Z0.
  - rewrite (Qfloor_comp _ _ E), Qfloor_Z.
    rewrite (round_float64_zero (div - inject_Z q)) by (rewrite E; ring).
    reflexivity.
Qed.

Lemma npy_floor_divide_15_exact (v : Q) :
  - inject_Z (2 ^ 53) <= v -> v <= inject_Z (2 ^ 53) ->
  npy_floor_divide v 15 == inject_Z (Qfloor (v / 15)).
Proof.
  intros Lo Hi. apply npy_snap_int. now apply npy_divmod_div_15_exact.
Qed.

Lemma npy_snap_nonneg (div : Q) : 0 <= div -> 0 <= npy_snap div.
Proof.
  intros H. unfold npy_snap. destruct (Qeq_bool div 0); [apply Qle_refl|].
  assert (F : 0 <= inject_Z (Qfloor div)).
  { change 0 with (inject_Z 0). rewrite <- Zle_Qle.
    change 0%Z with (Qfloor 0). now apply Qfloor_resp_le. }
  destruct (Qltb _ _); [|exact F].
  apply round_float64_nonneg.
  apply Qle_trans with (inject_Z (Qfloor div) + 0).
  - now rewrite Qplus_0_r.
  - apply Qplus_le_r. discriminate.
Qed.

Lemma npy_floor_divide_15_nonneg (v : Q) :
  0 <= v -> 0 <= npy_floor_divide v 15.
Proof.
  intros H. apply npy_snap_nonneg. destruct (fmod_15 v) as (F & Hpos & _).
  destruct (Hpos H) as (_ & T0 & _ & M).
  unfold npy_divmod_div. change (Qltb 15 0) with false. rewrite ajuste_positivo.
  rewrite (proj2 (Qltb_ge _ _) M).
  apply round_float64_nonneg. apply Qle_shift_div_l; [reflexivity|].
  rewrite Qmult_0_l. apply round_float64_nonneg. rewrite F.
  change 0 with (inject_Z 0). rewrite <- Zle_Qle. lia.
Qed.

(** A quotient of at most -1/2 is snapped to at most -1. *)
Lemma npy_snap_neg (div : Q) : div <= - (1 # 2) -> npy_snap div <= - 1.
Proof.
  intros H. unfold npy_snap.
  assert (N : Qeq_bool div 0 = false).
  { destruct (Qeq_bool div 0) eqn:Z0; [|reflexivity].
    apply Qeq_bool_iff in Z0. rewrite Z0 in H. exfalso. now apply H. }
  rewrite N.
  assert (F : (Qfloor div <= -1)%Z).
  { assert (L : inject_Z (Qfloor div) < inject_Z 0).
    { apply Qle_lt_trans with div; [apply Qfloor_le|].
      apply Qle_lt_trans with (- (1 # 2)); [exact H | reflexivity]. }
    rewrite <- Zlt_Qlt in L. lia. }
  destruct (Qltb (1 # 2) (round_float64 (div - inject_Z (Qfloor div)))) eqn:S.
  - apply Qltb_lt in S.
    assert (F2 : (Qfloor div <= -2)%Z).
    { destruct (Z.eq_dec (Qfloor div) (-1)) as [E|E]; [|lia]. exfalso.
      rewrite E in S. apply (Qlt_not_le _ _ S).
      apply (round_float64_le_pow2 _ (-1)); [lia|].
      apply (Qplus_le_l _ _ (inject_Z (-1))).
      setoid_replace (div - inject_Z (-1) + inject_Z (-1)) with div by ring.
      exact H. }
    apply (round_float64_le_opp_pow2 _ 0); [lia|].
    change (- 2 ^ 0) with (inject_Z (-2) + 1).
    apply Qplus_le_l. rewrite <- Zle_Qle. exact F2.
  - change (- 1) with (inject_Z (-1)). now rewrite <- Zle_Qle.
Qed.

Lemma npy_floor_divide_15_neg (v : Q) :
  v < 0 -> npy_floor_divide v 15 <= - 1.
Proof.
  intros H. apply npy_snap_neg. destruct (fmod_15 v) as (F & _ & Hneg).
  destruct (Hneg H) as (T & T0 & L & M).
  set (t := Qtrunc (v / 15)) in *.
  unfold npy_divmod_div. change (Qltb 15 0) with false. rewrite ajuste_positivo.
  rewrite (round_float64_proper _ _ F).
  assert (S0 : round_float64 (inject_Z (t * 15)) <= 0).
  { apply round_float64_nonpos. change 0 with (inject_Z 0).
    rewrite <- Zle_Qle. lia. }
  destruct (Qltb (fmod v 15) 0) eqn:M0.
  - apply Qle_trans with (- 2 ^ 0); [|discriminate].
    apply round_float64_le_opp_pow2; [lia|].
    change (- 2 ^ 0) with (0 - 1). apply Qplus_le_l.
    apply round_float64_nonpos. apply Qle_shift_div_r; [reflexivity|].
    now rewrite Qmult_0_l.
  - apply Qltb_ge in M0.
    assert (V : v == inject_Z (t * 15)).
    { apply Qle_antisym; [exact L|].
      apply (Qplus_le_l _ _ (- inject_Z (t * 15))).
      setoid_replace (inject_Z (t * 15) + - inject_Z (t * 15)) with 0 by ring.
      setoid_replace (v + - inject_Z (t * 15)) with (fmod v 15); [exact M0|].
      rewrite <- F. ring. }
    assert (T1 : (t <= -1)%Z).
    { destruct (Z.eq_dec t 0) as [E|E]; [|lia]. exfalso.
      rewrite E in V. rewrite V in H. discriminate. }
    assert (S8 : round_float64 (inject_Z (t * 15)) <= - 2 ^ 3).
    { apply round_float64_le_opp_pow2; [lia|].
      change (- 2 ^ 3) with (inject_Z (-8)). rewrite <- Zle_Qle. lia. }
    apply (round_float64_le_opp_pow2 _ (-1)); [lia|].
    apply Qle_shift_div_r; [reflexivity|].
    apply Qle_trans with (- 2 ^ 3); [exact S8 | discriminate].
Qed.

Lemma npy_snap_le (div : Q) :
  div <= 2 ^ 60 -> npy_snap div <= 2 ^ 61.
Proof.
  intros H. unfold npy_snap. destruct (Qeq_bool div 0); [discriminate|].
  assert (F : inject_Z (Qfloor div) <= 2 ^ 60)
    by (apply Qle_trans with div; [apply Qfloor_le | exact H]).
  destruct (Qltb _ _).
  - apply round_float64_le_pow2; [lia|].
    apply Qle_trans with (2 ^ 60 + 1); [|discriminate].
    now apply Qplus_le_l.
  - apply Qle_trans with (2 ^ 60); [exact F | discriminate].
Qed.

(** Hours from 0 to [2^63] give a quotient within [int64]. *)
Lemma npy_floor_divide_15_le (v : Q) :
  0 <= v -> v <= 2 ^ 63 -> npy_floor_divide v 15 <= 2 ^ 61.
Proof.
  intros H0 Hi. apply npy_snap_le. destruct (fmod_15 v) as (F & Hpos & _).
  destruct (Hpos H0) as (_ & T0 & L & M).
  unfold npy_divmod_div. change (Qltb 15 0) with false. rewrite ajuste_positivo.
  rewrite (proj2 (Qltb_ge _ _) M).
  apply round_float64_le_pow2; [lia|].
  apply Qle_shift_div_r; [reflexivity|].
  apply Qle_trans with (2 ^ 63); [|discriminate].
  apply round_float64_le_pow2; [lia|]. rewrite F.
  apply Qle_trans with v; [exact L | exact Hi].
Qed.

End Rounding.

(** ** The cast of the quotient *)

Section Cast.
Local Open Scope Q_scope.

Lemma float_val_none (x : float) :
  float_val x = None <-> is_nan x = true \/ is_infinity x = true.
Proof.
  unfold float_val. rewrite is_nan_Prim2SF, is_infinity_Prim2SF.
  destruct (Prim2SF x); split; intros H; try discriminate; auto;
    destruct H; discriminate.
Qed.

(** The cast fails on NaN and on the infinities only. *)
Lemma floordiv_astype_int_none (x : float) :
  floordiv_astype_int x 15 = None <-> is_nan x = true \/ is_infinity x = true.
Proof.
  rewrite <- float_val_none. unfold floordiv_astype_int.
  destruct (float_val x); simpl; split; intros H; try discriminate; auto.
Qed.

Lemma astype_int64_range (x : Q) :
  (min_int64 <= astype_int64 x <= max_int64)%Z.
Proof.
  unfold astype_int64.
  destruct ((min_int64 <=? Qtrunc x)%Z && (Qtrunc x <=? max_int64)%Z) eqn:E.
  - apply andb_true_iff in E. destruct E as [E1 E2].
    apply Z.leb_le in E1. apply Z.leb_le in E2. lia.
  - unfold min_int64, max_int64. lia.
Qed.

Lemma floordiv_astype_int_range (x : float) (d c : Z) :
  floordiv_astype_int x d = Some c -> (min_int64 <= c <= max_int64)%Z.
Proof.
  unfold floordiv_astype_int. destruct (float_val x) as [a|]; [|discriminate].
  destruct (d =? 0)%Z; [discriminate|]. intros [= <-]. apply astype_int64_range.
Qed.

(** Within 53 bits the credits are the floor of the hours over 15. *)
Lemma floordiv_astype_int_exact (x : float) (v : Q) :
  float_val x = Some v ->
  - inject_Z (2 ^ 53) <= v -> v <= inject_Z (2 ^ 53) ->
  floordiv_astype_int x 15 = Some (Qfloor (v / 15)).
Proof.
  intros Hv Lo Hi. unfold floordiv_astype_int. rewrite Hv. simpl Z.eqb. cbv iota.
  f_equal. unfold astype_int64. change (inject_Z 15) with 15.
  rewrite (Qtrunc_Z _ _ (npy_floor_divide_15_exact v Lo Hi)).
  assert (L : (Qfloor (- inject_Z (2 ^ 53) / 15) <= Qfloor (v / 15))%Z).
  { apply Qfloor_resp_le. apply Qmult_le_compat_r; [exact Lo | discriminate]. }
  assert (U : (Qfloor (v / 15) <= Qfloor (inject_Z (2 ^ 53) / 15))%Z).
  { apply Qfloor_resp_le. apply Qmult_le_compat_r; [exact Hi | discriminate]. }
  change (Qfloor (- inject_Z (2 ^ 53) / 15)) with (-600479950316067)%Z in L.
  change (Qfloor (inject_Z (2 ^ 53) / 15)) with 600479950316066%Z in U.
  replace ((min_int64 <=? Qfloor (v / 15))%Z && (Qfloor (v / 15) <=? max_int64)%Z)
    with true; [reflexivity|].
  symmetry. apply andb_true_iff. unfold min_int64, max_int64.
  split; apply Z.leb_le; lia.
Qed.

(** Hours that are not negative give credits that are not negative, unless
    the quotient leaves [int64]. *)
Lemma floordiv_astype_int_nonneg (x : float) (v : Q) :
  float_val x = Some v -> 0 <= v ->
  exists c, floordiv_astype_int x 15 = Some c /\ ((0 <= c)%Z \/ c = min_int64).
Proof.
  intros Hv H. unfold floordiv_astype_int. rewrite Hv. simpl Z.eqb. cbv iota.
  eexists. split; [reflexivity|]. unfold astype_int64.
  destruct (_ && _); [left | now right].
  pose proof (npy_floor_divide_15_nonneg v H) as N. unfold Qtrunc.
  apply Qle_bool_iff in N. change (inject_Z 15) with 15. rewrite N.
  apply Qle_bool_iff in N. change 0%Z with (Qfloor 0). now apply Qfloor_resp_le.
Qed.

(** Hours from 0 to [2^63] give credits that are not negative. *)
Lemma floordiv_astype_int_nonneg_63 (x : float) (v : Q) :
  float_val x = Some v -> 0 <= v -> v <= inject_Z (2 ^ 63) ->
  exists c, floordiv_astype_int x 15 = Some c /\ (0 <= c)%Z.
Proof.
  intros Hv H0 Hi. unfold floordiv_astype_int. rewrite Hv. simpl Z.eqb. cbv iota.
  eexists. split; [reflexivity|]. change (inject_Z 15) with 15.
  pose proof (npy_floor_divide_15_nonneg v H0) as N.
  assert (U : npy_floor_divide v 15 <= 2 ^ 61).
  { apply npy_floor_divide_15_le; [exact H0|]. now rewrite pow2_Z by lia. }
  assert (T : Qtrunc (npy_floor_divide v 15) = Qfloor (npy_floor_divide v 15)).
  { unfold Qtrunc. apply Qle_bool_iff in N. now rewrite N. }
  assert (F0 : (0 <= Qfloor (npy_floor_divide v 15))%Z).
  { change 0%Z with (Qfloor 0). now apply Qfloor_resp_le. }
  assert (F1 : (Qfloor (npy_floor_divide v 15) <= 2 ^ 61)%Z).
  { rewrite <- (Qfloor_Z (2 ^ 61)). apply Qfloor_resp_le.
    now rewrite <- pow2_Z by lia. }
  unfold astype_int64. rewrite T.
  replace ((min_int64 <=? Qfloor (npy_floor_divide v 15))%Z
           && (Qfloor (npy_floor_divide v 15) <=? max_int64)%Z) with true;
    [exact F0|].
  symmetry. apply andb_true_iff. unfold min_int64, max_int64.
  split; apply Z.leb_le; lia.
Qed.

(** Negative hours give negative credits. *)
Lemma floordiv_astype_int_neg (x : float) (v : Q) :
  float_val x = Some v -> v < 0 ->
  exists c, floordiv_astype_int x 15 = Some c /\ (c < 0)%Z.
Proof.
  intros Hv H. unfold floordiv_astype_int. rewrite Hv. simpl Z.eqb. cbv iota.
  eexists. split; [reflexivity|]. unfold astype_int64.
  destruct (_ && _); [|reflexivity].
  pose proof (npy_floor_divide_15_neg v H) as N. change (inject_Z 15) with 15.
  unfold Qtrunc. destruct (Qle_bool 0 (npy_floor_divide v 15)) eqn:B.
  - apply Qle_bool_iff in B. exfalso.
    assert (X : 0 <= - 1) by (eapply Qle_trans; eauto). now apply X.
  - apply Qceiling_resp_le in N. change (Qceiling (- 1)) with (-1)%Z in N. lia.
Qed.

End Cast.
Lemma Qfloor_div15_mono (v w : Q) :
  (v <= w)%Q -> (Qfloor (v / 15) <= Qfloor (w / 15))%Z.
Proof.
  intros H. apply Qfloor_resp_le. unfold Qdiv.
  apply Qmult_le_compat_r; [exact H | discriminate].
Qed.

(** ** [load_data] *)

Section LoadDataProps.
Variable upper_ext : N -> list N.

(** A row whose hours are a finite number of magnitude below [2^53] is
    normalised, with the floor of the hours over 15 as its credits. *)
Lemma normalizar_finite_hours (r : csv_row) (h : float) (v : Q) :
  csv_Horas r = Numeric h -> float_val h = Some v ->
  (- inject_Z (2 ^ 53) <= v)%Q -> (v <= inject_Z (2 ^ 53))%Q ->
  exists rec, normalizar upper_ext r = Some rec /\
    Horas rec = h /\
    Nota rec = fillna0 (to_numeric_coerce (csv_Nota r)) /\
    Creditos rec = Qfloor (v / 15).
Proof.
  intros Hh Hv Hlo Hhi. unfold normalizar. rewrite Hh. simpl to_numeric_coerce.
  rewrite (fillna0_finite h v Hv).
  rewrite (floordiv_astype_int_exact h v Hv Hlo Hhi).
  eexists. split; [reflexivity|]. simpl. auto.
Qed.

(** The fields of a normalised row. *)
Lemma normalizar_fields (r : csv_row) (rec : row) :
  normalizar upper_ext r = Some rec ->
  Codigo rec = csv_Codigo r /\ Disciplina rec = csv_Disciplina r /\
  Ano rec = csv_Ano r /\
  Nota rec = fillna0 (to_numeric_coerce (csv_Nota r)) /\
  Horas rec = fillna0 (to_numeric_coerce (csv_Horas r)) /\
  Area rec = categorizar_area upper_ext (csv_Codigo r) (csv_Disciplina r) /\
  floordiv_astype_int (Horas rec) 15 = Some (Creditos rec).
Proof.
  unfold normalizar.
  destruct (floordiv_astype_int (fillna0 (to_numeric_coerce (csv_Horas r))) 15)
    as [c|] eqn:E; [|discriminate].
  intros [= <-]. simpl. auto 10.
Qed.

(** The credits of a normalised row, by its hours. *)
Lemma normalizar_creditos (r : csv_row) (rec : row) :
  normalizar upper_ext r = Some rec ->
  (min_int64 <= Creditos rec <= max_int64)%Z /\
  exists v, float_val (Horas rec) = Some v /\
    ((- inject_Z (2 ^ 53) <= v)%Q -> (v <= inject_Z (2 ^ 53))%Q ->
     Creditos rec = Qfloor (v / 15)) /\
    ((v < 0)%Q -> (Creditos rec < 0)%Z) /\
    ((0 <= v)%Q -> (v <= inject_Z (2 ^ 63))%Q -> (0 <= Creditos rec)%Z) /\
    ((0 <= v)%Q -> (0 <= Creditos rec)%Z \/ Creditos rec = min_int64).
Proof.
  intros H. destruct (normalizar_fields r rec H) as (_ & _ & _ & _ & _ & _ & E).
  split; [now apply floordiv_astype_int_range in E|].
  destruct (float_val (Horas rec)) as [v|] eqn:V.
  - exists v. split; [reflexivity|]. split; [|split; [|split]].
    + intros Lo Hi. rewrite (floordiv_astype_int_exact _ v V Lo Hi) in E.
      now injection E.
    + intros Neg. destruct (floordiv_astype_int_neg _ v V Neg) as (c & Ec & Hc).
      congruence.
    + intros Pos Hi.
      destruct (floordiv_astype_int_nonneg_63 _ v V Pos Hi) as (c & Ec & Hc).
      congruence.
    + intros Pos. destruct (floordiv_astype_int_nonneg _ v V Pos) as (c & Ec & Hc).
      rewrite Ec in E. now injection E as <-.
  - unfold floordiv_astype_int in E. rewrite V in E. discriminate.
Qed.

(** A line whose hours are a finite number is normalised. *)
Lemma normalizar_numeric (r : csv_row) (h : float) (v : Q) :
  csv_Horas r = Numeric h -> float_val h = Some v ->
  exists rec, normalizar upper_ext r = Some rec /\ Horas rec = h.
Proof.
  intros Hh Hv. unfold normalizar. rewrite Hh. simpl to_numeric_coerce.
  rewrite (fillna0_finite h v Hv). unfold floordiv_astype_int. rewrite Hv.
  simpl Z.eqb. cbv iota. eexists. split; reflexivity.
Qed.

(** C5 (as amended).  For a row whose hours are a number [v >= 0] up to
    [2^53], where the float quotient is exact, normalisation gives
    [Creditos = floor (v / 15)], which is not negative; hours in [[0, 15)]
    give 0 credits, 15 hours give 1 and 44 hours give 2. *)
Theorem creditos_is_floor_of_hours_over_15
  (r : csv_row) (h : float) (v : Q) :
  csv_Horas r = Numeric h -> float_val h = Some v ->
  (0 <= v)%Q -> (v <= inject_Z (2 ^ 53))%Q ->
  exists rec, normalizar upper_ext r = Some rec /\
    Creditos rec = Qfloor (v / 15) /\
    (0 <= Creditos rec)%Z /\
    ((v < 15)%Q -> Creditos rec = 0%Z) /\
    ((v == 15)%Q -> Creditos rec = 1%Z) /\
    ((v == 44)%Q -> Creditos rec = 2%Z).
Proof.
  intros Hh Hv H0 Hhi.
  destruct (normalizar_finite_hours r h v Hh Hv) as (rec & E & _ & _ & Hc);
    [apply Qle_trans with 0%Q; [discriminate | exact H0] | exact Hhi |].
  exists rec. split; [exact E|]. split; [exact Hc|]. rewrite Hc.
  pose proof (Qfloor_div15_mono 0 v H0) as Hq. change (Qfloor (0 / 15)) with 0%Z in Hq.
  split; [exact Hq|]. split; [|split].
  - intros Hlt. apply Z.le_antisymm; [|exact Hq].
    assert (Hx : (v / 15 < 1)%Q).
    { unfold Qdiv. apply Qlt_shift_div_r; [reflexivity|]. now rewrite Qmult_1_l. }
    pose proof (Qfloor_le (v / 15)) as Hf.
    assert (Hz : (inject_Z (Qfloor (v / 15)) < inject_Z 1)%Q)
      by (eapply Qle_lt_trans; eauto).
    rewrite <- Zlt_Qlt in Hz. lia.
  - intros ->. reflexivity.
  - intros ->. reflexivity.
Qed.

Lemma normalizar_none_iff (r : csv_row) :
  normalizar upper_ext r = None <-> horas_infinitas r = true.
Proof.
  unfold normalizar, horas_infinitas.
  destruct (floordiv_astype_int _ 15) eqn:E.
  - split; [discriminate|]. intros H.
    assert (N : floordiv_astype_int (fillna0 (to_numeric_coerce (csv_Horas r))) 15
                <> None) by (rewrite E; discriminate).
    elim N. apply floordiv_astype_int_none. right.
    destruct (csv_Horas r) as [h|]; [|discriminate]. simpl.
    unfold fillna0. destruct (is_nan h) eqn:Hn; [|exact H].
    rewrite is_nan_Prim2SF in Hn. rewrite is_infinity_Prim2SF in H.
    destruct (Prim2SF h); discriminate.
  - split; [intros _|reflexivity].
    apply floordiv_astype_int_none in E. rewrite fillna0_not_nan in E.
    destruct E as [E|E]; [discriminate|].
    destruct (csv_Horas r) as [h|]; simpl in E.
    + unfold fillna0 in E. destruct (is_nan h); [discriminate | exact E].
    + discriminate.
Qed.


Lemma traverse_Forall2 {A B : Type} (f : A -> option B) (l : list A) :
  forall l', traverse f l = Some l' -> Forall2 (fun a b => f a = Some b) l l'.
Proof.
  induction l as [|a l IH]; simpl; intros l'.
  - intros [= <-]. constructor.
  - destruct (f a) as [b|] eqn:E; [|discriminate].
    destruct (traverse f l) as [bs|]; [|discriminate].
    intros [= <-]. constructor; auto.
Qed.

Lemma traverse_some {A B : Type} (f : A -> option B) (l : list A) :
  Forall (fun a => f a <> None) l -> exists l', traverse f l = Some l'.
Proof.
  induction 1 as [|a l Ha _ [l' IH]]; simpl.
  - now eexists.
  - destruct (f a); [|now elim Ha]. rewrite IH. now eexists.
Qed.

(** The frame has a row for each line, in order, unless the hours of some
    line are infinite. *)
Lemma load_data_rows (csv : list csv_row) :
  existsb horas_infinitas csv = false ->
  Forall2 (fun r rec => normalizar upper_ext r = Some rec)
          csv (load_data upper_ext (Tabela csv)).
Proof.
  intros H. unfold load_data, try_load_data.
  destruct (traverse_some (normalizar upper_ext) csv) as [df E].
  - apply Forall_forall. intros r Hr N. apply normalizar_none_iff in N.
    assert (X : existsb horas_infinitas csv = true)
      by (apply existsb_exists; eauto).
    congruence.
  - rewrite E. now apply traverse_Forall2.
Qed.

(** Infinite hours in one line lose the whole frame: the cast raises and
    [load_data] returns the empty frame. *)
Lemma load_data_infinite_hours (csv : list csv_row) :
  existsb horas_infinitas csv = true -> load_data upper_ext (Tabela csv) = [].
Proof.
  intros H. unfold load_data, try_load_data.
  destruct (traverse (normalizar upper_ext) csv) as [df|] eqn:E; [|reflexivity].
  apply traverse_Forall2 in E. apply existsb_exists in H.
  destruct H as (r & Hr & Hinf). apply normalizar_none_iff in Hinf.
  exfalso. induction E as [|a b l l' Hab _ IH]; [destruct Hr|].
  destruct Hr as [->|Hr]; [congruence | now apply IH].
Qed.


(** C4 (as amended).  Credits are not negative when the hours are missing,
    unparsable or a number [v >= 0] up to [2^63]; beyond, hours that are
    not negative still give credits that are not negative unless the
    quotient leaves [int64], which the cast turns into [min_int64].  A row
    whose hours are a negative number gets negative credits, the floor of
    [v / 15] down to [-2^53]: -30 hours give -2 credits.  Infinite hours
    give no row, and the frame of a table with such a line is empty. *)
Theorem creditos_sign_follows_hours (r : csv_row) :
  (csv_Horas r = NotNumeric \/
   (exists h, csv_Horas r = Numeric h /\ is_nan h = true) ->
   exists rec, normalizar upper_ext r = Some rec /\ Creditos rec = 0%Z) /\
  (forall h v, csv_Horas r = Numeric h -> float_val h = Some v ->
     (0 <= v)%Q -> (v <= inject_Z (2 ^ 63))%Q ->
     exists rec, normalizar upper_ext r = Some rec /\ (0 <= Creditos rec)%Z) /\
  (forall h v, csv_Horas r = Numeric h -> float_val h = Some v -> (0 <= v)%Q ->
     exists rec, normalizar upper_ext r = Some rec /\
       ((0 <= Creditos rec)%Z \/ Creditos rec = min_int64)) /\
  (forall h v, csv_Horas r = Numeric h -> float_val h = Some v -> (v < 0)%Q ->
     exists rec, normalizar upper_ext r = Some rec /\ (Creditos rec < 0)%Z /\
       ((- inject_Z (2 ^ 53) <= v)%Q -> Creditos rec = Qfloor (v / 15))) /\
  (horas_infinitas r = true ->
   normalizar upper_ext r = None /\
   forall csv, In r csv -> load_data upper_ext (Tabela csv) = []) /\
  option_map Creditos (normalizar upper_ext (linha_csv (Numeric 7.5) NotNumeric))
  = Some 0%Z /\
  option_map Creditos (normalizar upper_ext (linha_csv (Numeric 7.5) (Numeric 30)))
  = Some 2%Z /\
  option_map Creditos (normalizar upper_ext (linha_csv (Numeric 7.5) (Numeric (-30))))
  = Some (-2)%Z.
Proof.
  split; [|split; [|split; [|split; [|split; [|repeat split]]]]].
  - intros H. unfold normalizar.
    assert (E : fillna0 (to_numeric_coerce (csv_Horas r)) = 0%float).
    { destruct H as [-> | (h & -> & Hn)]; [reflexivity|].
      simpl. unfold fillna0. now rewrite Hn. }
    rewrite E. eexists. split; [reflexivity | reflexivity].
  - intros h v Hh Hv H0 Hhi.
    destruct (normalizar_numeric r h v Hh Hv) as (rec & E & Eh).
    exists rec. split; [exact E|].
    destruct (normalizar_creditos r rec E) as (_ & v' & V & _ & _ & C & _).
    rewrite Eh, Hv in V. injection V as <-. now apply C.
  - intros h v Hh Hv H0.
    destruct (normalizar_numeric r h v Hh Hv) as (rec & E & Eh).
    exists rec. split; [exact E|].
    destruct (normalizar_creditos r rec E) as (_ & v' & V & _ & _ & _ & C).
    rewrite Eh, Hv in V. injection V as <-. now apply C.
  - intros h v Hh Hv Hneg.
    destruct (normalizar_numeric r h v Hh Hv) as (rec & E & Eh).
    exists rec. split; [exact E|].
    destruct (normalizar_creditos r rec E) as (_ & v' & V & C1 & C2 & _).
    rewrite Eh, Hv in V. injection V as <-. split; [now apply C2|].
    intros Lo. apply C1; [exact Lo|].
    apply Qle_trans with 0%Q; [now apply Qlt_le_weak | discriminate].
  - intros H. split; [now apply normalizar_none_iff|].
    intros csv Hr. apply load_data_infinite_hours, existsb_exists. eauto.
Qed.
End LoadDataProps.

(** C5 at 44, 15 and 14.5 hours. *)
Lemma creditos_is_floor_of_hours_over_15_witness :
  (exists rec, normalizar no_ext (linha_csv (Numeric 7.5) (Numeric 44)) = Some rec
               /\ Creditos rec = 2%Z) /\
  (exists rec, normalizar no_ext (linha_csv (Numeric 7.5) (Numeric 15)) = Some rec
               /\ Creditos rec = 1%Z) /\
  (exists rec, normalizar no_ext (linha_csv (Numeric 7.5) (Numeric 14.5)) = Some rec
               /\ Creditos rec = 0%Z).
Proof.
  split; [|split].
  - destruct (creditos_is_floor_of_hours_over_15 no_ext
                (linha_csv (Numeric 7.5) (Numeric 44)) 44%float
                (6192449487634432 # 140737488355328)
                eq_refl eq_refl)
      as (rec & E & _ & _ & _ & _ & H); [discriminate | discriminate |].
    exists rec. split; [exact E | now apply H].
  - destruct (creditos_is_floor_of_hours_over_15 no_ext
                (linha_csv (Numeric 7.5) (Numeric 15)) 15%float
                (8444249301319680 # 562949953421312)
                eq_refl eq_refl)
      as (rec & E & _ & _ & _ & H & _); [discriminate | discriminate |].
    exists rec. split; [exact E | now apply H].
  - destruct (creditos_is_floor_of_hours_over_15 no_ext
                (linha_csv (Numeric 7.5) (Numeric 14.5)) 14.5%float
                (8162774324609024 # 562949953421312)
                eq_refl eq_refl)
      as (rec & E & _ & _ & H & _); [discriminate | discriminate |].
    exists rec. split; [exact E | now apply H].
Defined.

(** C4, the claim as written fails: hours of -30 give -2 credits; and
    hours that are not negative can give negative credits too, when the
    quotient leaves [int64]: hours of 1e300 give [min_int64]. *)
Lemma creditos_can_be_negative :
  (exists rec,
     normalizar no_ext (linha_csv (Numeric 7.5) (Numeric (-30))) = Some rec /\
     Creditos rec = (-2)%Z /\ ~ (0 <= Creditos rec)%Z) /\
  (exists rec,
     normalizar no_ext (linha_csv (Numeric 7.5) (Numeric 1e300)) = Some rec /\
     (0 <=? Horas rec)%float = true /\
     Creditos rec = min_int64 /\ ~ (0 <= Creditos rec)%Z).
Proof.
  split.
  - eexists. split; [vm_compute; reflexivity|]. split; [reflexivity|].
    intros H. vm_compute in H. now apply H.
  - eexists. split; [vm_compute; reflexivity|]. split; [reflexivity|].
    split; [reflexivity|]. intros H. vm_compute in H. now apply H.
Qed.

(** C5, the claim as written fails beyond [2^53]: the quotient of 1e300
    hours is outside [int64], which the cast turns into [min_int64], and
    the float quotient of 65917998549694744 hours by 15 is one less than
    the floor. *)
Lemma creditos_not_floor_of_huge_hours :
  (exists rec v,
     normalizar no_ext (linha_csv (Numeric 7.5) (Numeric 1e300)) = Some rec /\
     float_val (Horas rec) = Some v /\ (0 <= v)%Q /\
     Creditos rec = min_int64 /\ (Creditos rec < 0)%Z /\
     Creditos rec <> Qfloor (v / 15)) /\
  (exists rec v,
     normalizar no_ext
       (linha_csv (Numeric 7.5) (Numeric 65917998549694744)) = Some rec /\
     float_val (Horas rec) = Some v /\ (0 <= v)%Q /\
     Qfloor (v / 15) = 4394533236646316%Z /\
     Creditos rec = 4394533236646315%Z).
Proof.
  split.
  - eexists. eexists. split; [vm_compute; reflexivity|].
    split; [vm_compute; reflexivity|]. split; [discriminate|].
    split; [reflexivity|]. split; [reflexivity|].
    intros H. vm_compute in H. discriminate.
  - eexists. eexists. split; [vm_compute; reflexivity|].
    split; [vm_compute; reflexivity|]. split; [discriminate|].
    split; reflexivity.
Qed.

(** ** Credits per year *)

Lemma somar_no_ano_keys (ano c : Z) (g : list (Z * Z)) (a : Z) :
  In a (map fst (somar_no_ano ano c g)) -> a = ano \/ In a (map fst g).
Proof.
  induction g as [|[a0 s] g IH]; simpl.
  - intros [<-|[]]. now left.
  - destruct (ano <? a0)%Z; [|destruct (ano =? a0)%Z]; simpl.
    + intros [<-|[<-|H]]; auto.
    + intros [<-|H]; auto.
    + intros [<-|H]; auto. destruct (IH H); auto.
Qed.

Lemma somar_no_ano_ascending (ano c : Z) (g : list (Z * Z)) :
  StronglySorted Z.lt (map fst g) ->
  StronglySorted Z.lt (map fst (somar_no_ano ano c g)).
Proof.
  induction g as [|[a s] g IH]; simpl; intros H.
  - repeat constructor.
  - inversion H as [|? ? Hs Ha]; subst.
    destruct (Z.ltb_spec ano a) as [Hlt|Hge]; simpl.
    + constructor; [exact H|]. constructor; [exact Hlt|].
      eapply Forall_impl; [|exact Ha]. intros; lia.
    + destruct (Z.eqb_spec ano a) as [->|Hne]; simpl; [exact H|].
      constructor; [now apply IH|].
      apply Forall_forall. intros y Hy. apply somar_no_ano_keys in Hy.
      destruct Hy as [->|Hy]; [lia|]. rewrite Forall_forall in Ha. now apply Ha.
Qed.

(** The groups come in ascending order of the year, one per year. *)
Lemma groupby_Ano_sum_ascending (df : list row) :
  StronglySorted Z.lt (map fst (groupby_Ano_sum df)).
Proof.
  unfold groupby_Ano_sum.
  assert (G : forall g, StronglySorted Z.lt (map fst g) ->
                        StronglySorted Z.lt
                          (map fst (fold_left
                                      (fun g r => somar_no_ano (Ano r) (Creditos r) g)
                                      df g))).
  { induction df as [|r df IH]; intros g Hg; simpl; [exact Hg|].
    apply IH. now apply somar_no_ano_ascending. }
  apply G. constructor.
Qed.

(** ** Sums of credits *)

Lemma wrap64_mod (z : Z) : (wrap64 z mod 2 ^ 64 = z mod 2 ^ 64)%Z.
Proof.
  unfold wrap64.
  replace ((z + 2 ^ 63) mod 2 ^ 64 - 2 ^ 63)%Z
    with ((z + 2 ^ 63) mod 2 ^ 64 + (- 2 ^ 63))%Z by lia.
  rewrite Zplus_mod_idemp_l. f_equal. lia.
Qed.

Lemma wrap64_eq_iff (x y : Z) :
  wrap64 x = wrap64 y <-> (x mod 2 ^ 64 = y mod 2 ^ 64)%Z.
Proof.
  split; intros H.
  - now rewrite <- (wrap64_mod x), <- (wrap64_mod y), H.
  - unfold wrap64. f_equal.
    rewrite <- (Zplus_mod_idemp_l x), <- (Zplus_mod_idemp_l y). now rewrite H.
Qed.

Lemma wrap64_add_l (x y : Z) : wrap64 (wrap64 x + y) = wrap64 (x + y).
Proof.
  apply wrap64_eq_iff. rewrite <- Zplus_mod_idemp_l, wrap64_mod.
  now rewrite Zplus_mod_idemp_l.
Qed.







(** ** Sums of floats *)

(** The splitting of [pairwise_sum] ends before the fuel does. *)
Lemma pairwise_sum_fuel (f1 : nat) : forall (f2 : nat) (l : list float),
  (List.length l <= f1)%nat -> (List.length l <= f2)%nat ->
  pairwise_sum f1 l = pairwise_sum f2 l.
Proof.
  induction f1 as [|f1 IH]; intros f2 l H1 H2.
  - destruct l; [|simpl in H1; lia]. now destruct f2.
  - destruct f2 as [|f2].
    + destruct l; [reflexivity | simpl in H2; lia].
    + cbn [pairwise_sum].
      destruct (List.length l <? 8)%nat eqn:A; [reflexivity|].
      destruct (List.length l <=? 128)%nat eqn:B; [reflexivity|].
      apply Nat.leb_gt in B.
      set (n := List.length l) in *.
      assert (N2 : (0 < n / 2 - (n / 2) mod 8 < n)%nat).
      { pose proof (Nat.div_mod_eq n 2) as D2.
        pose proof (Nat.mod_upper_bound n 2 ltac:(lia)) as M2.
        pose proof (Nat.mod_upper_bound (n / 2) 8 ltac:(lia)) as M8. lia. }
      f_equal; apply IH; rewrite ?length_firstn, ?length_skipn; fold n; lia.
Qed.

(** A column of fewer than eight values is added from left to right. *)
Lemma nansum_short (l : list float) :
  (List.length l < 8)%nat ->
  nansum l
  = (0 + soma_seq 0 (map (fun x => if is_nan x then 0 else x) l))%float.
Proof.
  intros H. unfold nansum.
  destruct (List.length l) as [|n] eqn:E; cbn [pairwise_sum];
    rewrite length_map, E.
  - reflexivity.
  - apply Nat.ltb_lt in H. now rewrite H.
Qed.

(** ** IRA *)

(** What the academic tab has shown when the top-ten table fails. *)
Lemma tab1_PainelKeyError (df : list row) (anos : list Z) (areas : list area)
  (a : list acumulado) (t : Z) (i : float) :
  tab1 df anos areas = PainelKeyError a t i ->
  df <> [] /\ filtrar anos areas df <> [] /\
  a = df_acumulado (filtrar anos areas df) /\
  t = total_creditos (filtrar anos areas df) /\
  i = ira (filtrar anos areas df) /\
  top_disciplinas (filtrar anos areas df) = None.
Proof.
  unfold tab1. destruct df as [|r0 df]; [discriminate|].
  destruct (filtrar anos areas (r0 :: df)) as [|r l]; [discriminate|].
  destruct (top_disciplinas (r :: l)) as [top|]; [discriminate|].
  intros [= <- <- <-]. repeat split; discriminate.
Qed.

(** What the panel of the academic tab holds. *)
Lemma tab1_Painel (df : list row) (anos : list Z) (areas : list area)
  (p : painel) :
  tab1 df anos areas = Painel p ->
  df <> [] /\ filtrar anos areas df <> [] /\
  p_acumulado p = df_acumulado (filtrar anos areas df) /\
  p_total p = total_creditos (filtrar anos areas df) /\
  p_ira p = ira (filtrar anos areas df) /\
  top_disciplinas (filtrar anos areas df) = Some (p_top p).
Proof.
  unfold tab1. destruct df as [|r0 df]; [discriminate|].
  destruct (filtrar anos areas (r0 :: df)) as [|r l]; [discriminate|].
  destruct (top_disciplinas (r :: l)) as [top|]; [|discriminate].
  intros [= <-]. simpl. repeat split; discriminate.
Qed.


(** ** Accumulated percentage *)

Lemma not_finite_iff (x : float) :
  not_finite x <-> is_nan x = true \/ is_infinity x = true.
Proof.
  unfold not_finite. rewrite is_nan_Prim2SF, is_infinity_Prim2SF.
  destruct (Prim2SF x); intuition discriminate.
Qed.

Lemma div_zero_not_finite (x : float) : not_finite (x / 0)%float.
Proof.
  unfold not_finite. rewrite div_spec.
  change (Prim2SF 0) with (S754_zero false).
  now destruct (Prim2SF x).
Qed.

Lemma mul_100_not_finite (x : float) :
  not_finite x -> not_finite (x * 100)%float.
Proof.
  unfold not_finite. rewrite mul_spec.
  change (Prim2SF 100) with (S754_finite false 7036874417766400 (-46)).
  now destruct (Prim2SF x).
Qed.

Lemma div_100_not_finite (x : float) :
  not_finite x -> not_finite (x / 100)%float.
Proof.
  unfold not_finite. rewrite div_spec.
  change (Prim2SF 100) with (S754_finite false 7036874417766400 (-46)).
  now destruct (Prim2SF x).
Qed.

Lemma rint_not_finite (x : float) : not_finite x -> rint x = x.
Proof.
  unfold not_finite, rint. now destruct (Prim2SF x).
Qed.

Lemma round2_not_finite (x : float) : not_finite x -> not_finite (round2 x).
Proof.
  intros H. unfold round2. apply div_100_not_finite.
  rewrite rint_not_finite; now apply mul_100_not_finite.
Qed.

(** With a total of zero every percentage is NaN or infinite. *)
Lemma pct_acumulado_zero_total (acc : Z) : not_finite (pct_acumulado acc 0).
Proof.
  unfold pct_acumulado. apply round2_not_finite, mul_100_not_finite.
  change (float_of_int 0) with 0%float. apply div_zero_not_finite.
Qed.

Lemma df_acumulado_Pct (filtered : list row) :
  Forall (fun a => ac_Pct a
                   = pct_acumulado (ac_Acumulado a) (total_creditos filtered))
         (df_acumulado filtered).
Proof.
  unfold df_acumulado. apply Forall_forall. intros a Ha.
  apply in_map_iff in Ha. destruct Ha as ([[ano c] acc] & <- & _). reflexivity.
Qed.

Lemma cumsum_from_length (l : list Z) : forall acc,
  List.length (cumsum_from acc l) = List.length l.
Proof.
  induction l as [|x l IH]; intros acc; simpl; [reflexivity|]. now rewrite IH.
Qed.

Lemma df_acumulado_length (filtered : list row) :
  List.length (df_acumulado filtered) = List.length (groupby_Ano_sum filtered).
Proof.
  unfold df_acumulado, cumsum.
  rewrite length_map, length_combine, cumsum_from_length, length_map.
  apply Nat.min_id.
Qed.

Lemma somar_no_ano_not_nil (ano c : Z) (g : list (Z * Z)) :
  somar_no_ano ano c g <> [].
Proof.
  destruct g as [|[a s] g]; simpl; [discriminate|].
  destruct (ano <? a)%Z; [discriminate|]. destruct (ano =? a)%Z; discriminate.
Qed.

Lemma fold_somar_not_nil (df : list row) : forall g,
  g <> [] ->
  fold_left (fun g r => somar_no_ano (Ano r) (Creditos r) g) df g <> [].
Proof.
  induction df as [|r df IH]; intros g Hg; simpl; [exact Hg|].
  apply IH, somar_no_ano_not_nil.
Qed.

(** A frame with rows has groups. *)
Lemma groupby_Ano_sum_not_nil (r : row) (l : list row) :
  groupby_Ano_sum (r :: l) <> [].
Proof.
  unfold groupby_Ano_sum. cbn [fold_left].
  apply fold_somar_not_nil, somar_no_ano_not_nil.
Qed.

(** C3 (the code departs from the claim).  When the total of the credits
    is 0 the percentage column is computed all the same, by a division by
    zero: no error is raised, and every percentage is NaN or infinite,
    never 0.0.  One discipline of 0 credits (10 hours in the file) gives NaN;
    the IRA of the same rows, which is guarded, is 0.0. *)
Theorem pct_acumulado_not_zero_when_total_zero :
  (forall filtered, total_creditos filtered = 0%Z ->
     Forall (fun a => (is_nan (ac_Pct a) = true \/ is_infinity (ac_Pct a) = true)
                      /\ ac_Pct a <> 0%float)
            (df_acumulado filtered)) /\
  (forall df anos areas p, tab1 df anos areas = Painel p ->
     p_acumulado p = df_acumulado (filtrar anos areas df) /\
     p_acumulado p <> []) /\
  (forall df anos areas a t i, tab1 df anos areas = PainelKeyError a t i ->
     a = df_acumulado (filtrar anos areas df) /\ a <> []) /\
  total_creditos [disciplina "Seminário" 9 0 2020] = 0%Z /\
  map (fun a => (ac_Ano a, ac_Acumulado a, ac_Pct a))
      (df_acumulado [disciplina "Seminário" 9 0 2020])
  = [ (2020%Z, 0%Z, nan) ] /\
  map ac_Pct (df_acumulado [disciplina "A" 9 2 2020; disciplina "B" 9 (-2) 2021])
  = [ infinity; nan ] /\
  ira [disciplina "Seminário" 9 0 2020] = 0%float /\
  (exists p,
     tab1 (load_data no_ext (Tabela [linha_csv (Numeric 9) (Numeric 10)]))
          [2020%Z] [SistemasDePotencia] = Painel p /\
     p_total p = 0%Z /\ map ac_Pct (p_acumulado p) = [nan] /\
     p_ira p = 0%float).
Proof.
  assert (NN : forall l : list row, l <> [] -> df_acumulado l <> []).
  { intros [|r l] N E; [now elim N|].
    apply (f_equal (@List.length _)) in E.
    rewrite df_acumulado_length in E. simpl in E.
    pose proof (groupby_Ano_sum_not_nil r l).
    destruct (groupby_Ano_sum (r :: l)); [congruence | discriminate]. }
  split; [|split; [|split; [|split; [|split; [|split; [|split]]]]]].
  - intros filtered H. pose proof (df_acumulado_Pct filtered) as F.
    rewrite H in F. eapply Forall_impl; [|exact F].
    intros a Ha. simpl in Ha. rewrite Ha.
    pose proof (pct_acumulado_zero_total (ac_Acumulado a)) as NF.
    split; [now apply not_finite_iff|].
    intros E. rewrite E in NF. exact NF.
  - intros df anos areas p H.
    destruct (tab1_Painel df anos areas p H) as (_ & F & H1 & _).
    rewrite H1. split; [reflexivity | now apply NN].
  - intros df anos areas a t i H.
    destruct (tab1_PainelKeyError df anos areas a t i H) as (_ & F & H1 & _).
    rewrite H1. split; [reflexivity | now apply NN].
  - reflexivity.
  - reflexivity.
  - reflexivity.
  - reflexivity.
  - eexists. split; [reflexivity|]. split; [reflexivity|].
    split; reflexivity.
Qed.

(** ** The order of floats *)

Ltac cmp_cases :=
  repeat match goal with
    | H : context [Z.compare ?a ?b] |- _ => destruct (Z.compare_spec a b)
    | H : context [Pos.compare ?a ?b] |- _ => destruct (Pos.compare_spec a b)
    | |- context [Z.compare ?a ?b] => destruct (Z.compare_spec a b)
    | |- context [Pos.compare ?a ?b] => destruct (Pos.compare_spec a b)
    end.

Ltac sf_order :=
  unfold SFltb, SFeqb; simpl;
  change Pos.compare_cont with (fun c a b => Pos.compare_cont c a b);
  repeat match goal with s : bool |- _ => destruct s end; simpl;
  repeat match goal with
    | |- context [Pos.compare_cont Eq ?a ?b] =>
        change (Pos.compare_cont Eq a b) with (Pos.compare a b)
    end;
  intros; cmp_cases; subst; simpl in *;
  try reflexivity; try discriminate; try lia.

Lemma SFltb_asym (x y : spec_float) :
  SFltb x y = true -> SFltb y x = false.
Proof. destruct x, y; sf_order. Qed.

Lemma SFltb_false_trans (x y z : spec_float) :
  y <> S754_nan ->
  SFltb x y = false -> SFltb y z = false -> SFltb x z = false.
Proof.
  intros Hy. destruct y; try (now elim Hy); clear Hy; destruct x, z; sf_order.
Qed.

Lemma SFltb_not_both_eq (r x g : spec_float) :
  SFltb r x = true -> SFeqb r g = true -> SFeqb x g = true -> False.
Proof. destruct r, x, g; sf_order. Qed.

Lemma ltb_asym (x y : float) : (x <? y)%float = true -> (y <? x)%float = false.
Proof. rewrite !ltb_spec. apply SFltb_asym. Qed.

Lemma ltb_false_trans (x y z : float) :
  is_nan y = false ->
  (x <? y)%float = false -> (y <? z)%float = false -> (x <? z)%float = false.
Proof.
  rewrite is_nan_Prim2SF, !ltb_spec. intros Hy. apply SFltb_false_trans.
  intros E. rewrite E in Hy. discriminate.
Qed.

Lemma ltb_nan_r (x y : float) : is_nan y = true -> (x <? y)%float = false.
Proof.
  rewrite is_nan_Prim2SF, ltb_spec.
  destruct (Prim2SF y); try discriminate. now destruct (Prim2SF x).
Qed.

Lemma ltb_nan_l (x y : float) : is_nan x = true -> (x <? y)%float = false.
Proof.
  rewrite is_nan_Prim2SF, ltb_spec.
  destruct (Prim2SF x); try discriminate. reflexivity.
Qed.

Lemma eqb_nan_l (x y : float) : is_nan x = true -> (x =? y)%float = false.
Proof.
  rewrite is_nan_Prim2SF, FloatAxioms.eqb_spec.
  destruct (Prim2SF x); try discriminate. reflexivity.
Qed.

Lemma ltb_not_both_eqb (r x g : float) :
  (r <? x)%float = true -> (r =? g)%float = true -> (x =? g)%float = true ->
  False.
Proof. rewrite ltb_spec, !FloatAxioms.eqb_spec. apply SFltb_not_both_eq. Qed.

(** ** [nlargest] *)

Lemma inserir_desc_perm (r : row) (l : list row) :
  Permutation (inserir_desc r l) (r :: l).
Proof.
  induction l as [|x l IH]; simpl; [reflexivity|].
  destruct (Nota r <? Nota x)%float; [|reflexivity].
  rewrite IH. apply perm_swap.
Qed.

Lemma sort_desc_perm (l : list row) : Permutation (sort_desc l) l.
Proof.
  induction l as [|r l IH]; simpl; [reflexivity|].
  rewrite inserir_desc_perm. now constructor.
Qed.

Lemma inserir_desc_sorted (r : row) (l : list row) :
  is_nan (Nota r) = false ->
  Forall (fun x => is_nan (Nota x) = false) l ->
  StronglySorted nao_menor l -> StronglySorted nao_menor (inserir_desc r l).
Proof.
  intros Hr Hl Hs. induction Hs as [|x l Hs IH Hx]; simpl.
  - repeat constructor.
  - inversion Hl as [|? ? Hnx Hl']; subst.
    destruct (Nota r <? Nota x)%float eqn:E.
    + constructor; [now apply IH|].
      apply Forall_forall. intros y Hy.
      apply (Permutation_in _ (inserir_desc_perm r l)) in Hy.
      destruct Hy as [<-|Hy].
      * now apply ltb_asym.
      * rewrite Forall_forall in Hx. now apply Hx.
    + constructor; [now constructor|]. constructor; [exact E|].
      apply Forall_forall. intros y Hy. rewrite Forall_forall in Hx.
      unfold nao_menor. apply ltb_false_trans with (Nota x); auto.
      now apply Hx.
Qed.

Lemma sort_desc_sorted (l : list row) :
  Forall (fun x => is_nan (Nota x) = false) l ->
  StronglySorted nao_menor (sort_desc l).
Proof.
  induction 1 as [|r l Hr Hl IH]; simpl; [constructor|].
  apply inserir_desc_sorted; auto.
  apply Forall_forall. intros y Hy.
  apply (Permutation_in _ (sort_desc_perm l)) in Hy.
  rewrite Forall_forall in Hl. now apply Hl.
Qed.

(** Insertion keeps the rows of one grade in their order. *)
Lemma inserir_desc_com_nota (g : float) (r : row) (l : list row) :
  com_nota g (inserir_desc r l) = com_nota g (r :: l).
Proof.
  unfold com_nota. induction l as [|x l IH]; simpl; [reflexivity|].
  destruct (Nota r <? Nota x)%float eqn:E; [|reflexivity].
  simpl. rewrite IH. simpl.
  destruct (Nota x =? g)%float eqn:Ex, (Nota r =? g)%float eqn:Er; simpl;
    try reflexivity.
  exfalso. exact (ltb_not_both_eqb _ _ _ E Er Ex).
Qed.

Lemma sort_desc_com_nota (g : float) (l : list row) :
  com_nota g (sort_desc l) = com_nota g l.
Proof.
  induction l as [|r l IH]; simpl; [reflexivity|].
  rewrite inserir_desc_com_nota. unfold com_nota in *. simpl. now rewrite IH.
Qed.

Lemma filter_split_perm {A : Type} (f : A -> bool) (l : list A) :
  Permutation (filter (fun x => negb (f x)) l ++ filter f l) l.
Proof.
  induction l as [|x l IH]; simpl; [reflexivity|].
  destruct (f x); simpl.
  - rewrite <- Permutation_middle. now constructor.
  - now constructor.
Qed.

Lemma StronglySorted_app {A : Type} (R : A -> A -> Prop) (l1 l2 : list A) :
  StronglySorted R l1 -> StronglySorted R l2 ->
  (forall a b, In a l1 -> In b l2 -> R a b) ->
  StronglySorted R (l1 ++ l2).
Proof.
  induction 1 as [|x l1 Hs IH Hx]; intros H2 H; simpl; [exact H2|].
  constructor.
  - apply IH; [exact H2|]. intros a b Ha Hb. apply H; [now right | exact Hb].
  - apply Forall_app. split; [exact Hx|].
    apply Forall_forall. intros b Hb. apply H; [now left | exact Hb].
Qed.

Lemma StronglySorted_app_inv {A : Type} (R : A -> A -> Prop) (l1 l2 : list A) :
  StronglySorted R (l1 ++ l2) ->
  StronglySorted R l1 /\ forall a b, In a l1 -> In b l2 -> R a b.
Proof.
  induction l1 as [|x l1 IH]; simpl; intros H.
  - split; [constructor | intros a b []].
  - inversion H as [|? ? Hs Hx]; subst. destruct (IH Hs) as [S1 H1].
    apply Forall_app in Hx. destruct Hx as [Hx1 Hx2]. split.
    + now constructor.
    + intros a b [<-|Ha] Hb.
      * rewrite Forall_forall in Hx2. now apply Hx2.
      * now apply H1.
Qed.

Lemma filter_firstn_prefix {A : Type} (f : A -> bool) (l : list A) :
  forall n, exists k, filter f (firstn n l) = firstn k (filter f l).
Proof.
  induction l as [|x l IH]; intros [|n]; simpl.
  - now exists 0%nat.
  - now exists 0%nat.
  - now exists 0%nat.
  - destruct (IH n) as [k Hk]. destruct (f x).
    + exists (S k). simpl. now rewrite Hk.
    + now exists k.
Qed.

Lemma filter_none {A : Type} (f : A -> bool) (l : list A) :
  (forall x, In x l -> f x = false) -> filter f l = [].
Proof.
  induction l as [|x l IH]; simpl; intros H; [reflexivity|].
  rewrite (H x (or_introl eq_refl)). apply IH. intros y Hy. apply H. now right.
Qed.

Lemma por_nota_desc_perm (df : list row) : Permutation (por_nota_desc df) df.
Proof.
  unfold por_nota_desc. rewrite sort_desc_perm.
  apply (filter_split_perm (fun r => is_nan (Nota r))).
Qed.

Lemma por_nota_desc_sorted (df : list row) :
  StronglySorted nao_menor (por_nota_desc df).
Proof.
  unfold por_nota_desc. apply StronglySorted_app.
  - apply sort_desc_sorted. apply Forall_forall. intros r Hr.
    apply filter_In in Hr. now apply negb_true_iff.
  - induction df as [|r df IH]; simpl; [constructor|].
    destruct (is_nan (Nota r)) eqn:E; [|exact IH].
    constructor; [exact IH|]. apply Forall_forall. intros b _.
    now apply ltb_nan_l.
  - intros a b _ Hb. apply filter_In in Hb. now apply ltb_nan_r.
Qed.

Lemma por_nota_desc_com_nota (g : float) (df : list row) :
  com_nota g (por_nota_desc df) = com_nota g df.
Proof.
  unfold por_nota_desc.
  assert (E : forall l, com_nota g (l ++ filter (fun r => is_nan (Nota r)) df)
                        = com_nota g l).
  { intros l. unfold com_nota. rewrite filter_app.
    rewrite (filter_none _ (filter _ df)); [apply app_nil_r|].
    intros r Hr. apply filter_In in Hr. now apply eqb_nan_l. }
  rewrite E, sort_desc_com_nota. clear E. unfold com_nota.
  induction df as [|r df IH]; simpl; [reflexivity|].
  destruct (is_nan (Nota r)) eqn:N; simpl.
  - rewrite (eqb_nan_l _ g N). exact IH.
  - now rewrite IH.
Qed.

(** C8.  [nlargest n] returns [min n (length df)] rows; they are rows of
    the frame, none of the rows left out has a greater grade than a row
    returned, the rows returned are in descending order of the grade, and
    among rows of one grade the first of the frame are taken, in the order
    of the frame.  The academic tab shows [nlargest 10] of the filtered
    rows.  Of twelve rows with different grades the ten with the highest
    grades are returned, highest first. *)
Theorem nlargest_highest_grades_in_order (n : nat) (df : list row) :
  let top := nlargest n df in
  List.length top = Nat.min n (List.length df) /\
  (exists rest, Permutation (top ++ rest) df /\
     forall a b, In a top -> In b rest -> nao_menor a b) /\
  StronglySorted nao_menor top /\
  (forall g, exists k, com_nota g top = firstn k (com_nota g df)) /\
  (forall anos areas p, tab1 df anos areas = Painel p ->
     p_top p = map (fun r => (Disciplina r, Nota r, Creditos r, Area r))
                   (nlargest 10 (filtrar anos areas df))) /\
  map Nota (nlargest 10 doze_disciplinas)
  = [ 10; 9.5; 9; 8.5; 8; 7.5; 7; 6.5; 5; 4 ]%float /\
  map Creditos
      (nlargest 2 [ disciplina "A" 5 1 2020; disciplina "B" 7 2 2020;
                    disciplina "C" 7 3 2020; disciplina "D" 9 4 2020 ])
  = [ 4%Z; 2%Z ].
Proof.
  intros top. subst top. unfold nlargest.
  pose proof (por_nota_desc_sorted df) as Hs.
  rewrite <- (firstn_skipn n (por_nota_desc df)) in Hs.
  apply StronglySorted_app_inv in Hs. destruct Hs as [Hs Hlt].
  split; [|split; [|split; [|split; [|split; [|split]]]]].
  - rewrite length_firstn. now rewrite (Permutation_length (por_nota_desc_perm df)).
  - exists (skipn n (por_nota_desc df)). split; [|exact Hlt].
    rewrite firstn_skipn. apply por_nota_desc_perm.
  - exact Hs.
  - intros g. rewrite <- (por_nota_desc_com_nota g df). apply filter_firstn_prefix.
  - intros anos areas p H.
    destruct (tab1_Painel df anos areas p H) as (_ & _ & _ & _ & _ & T).
    unfold top_disciplinas in T. destruct (tem_Disciplina _); [|discriminate].
    now injection T as <-.
  - reflexivity.
  - reflexivity.
Qed.

(** ** The comparison frame *)

Lemma zip3_nth_error c1 : forall c2 c3 i a b c,
  nth_error c1 i = Some a -> nth_error c2 i = Some b ->
  nth_error c3 i = Some c ->
  nth_error (zip3 c1 c2 c3) i
  = Some {| Competencia := a; SuaAvaliacao := b; MediaDeMercado := c |}.
Proof.
  induction c1 as [|x c1 IH]; intros [|y c2] [|z c3] [|i] a b c;
    simpl; try discriminate.
  - now intros [= ->] [= ->] [= ->].
  - apply IH.
Qed.

Lemma zip3_columns c1 : forall c2 c3,
  List.length c1 = List.length c2 -> List.length c2 = List.length c3 ->
  map Competencia (zip3 c1 c2 c3) = c1 /\
  map SuaAvaliacao (zip3 c1 c2 c3) = c2 /\
  map MediaDeMercado (zip3 c1 c2 c3) = c3.
Proof.
  induction c1 as [|x c1 IH]; intros [|y c2] [|z c3]; simpl;
    try discriminate; auto.
  intros [= H1] [= H2]. destruct (IH c2 c3 H1 H2) as (E1 & E2 & E3).
  now rewrite E1, E2, E3.
Qed.

Lemma create_career_assessment_some ratings :
  List.length ratings = 10%nat ->
  create_career_assessment ratings
  = Some (zip3 (map fst ratings) (map snd ratings) benchmark_Benchmark).
Proof.
  intros H. unfold create_career_assessment, DataFrame3.
  rewrite !length_map, H. reflexivity.
Qed.

Lemma create_career_assessment_none ratings :
  List.length ratings <> 10%nat -> create_career_assessment ratings = None.
Proof.
  intros H. unfold create_career_assessment, DataFrame3.
  rewrite !length_map, Nat.eqb_refl. simpl.
  destruct (Nat.eqb_spec (List.length ratings) 10); [contradiction | reflexivity].
Qed.

Lemma create_career_assessment_length ratings df :
  create_career_assessment ratings = Some df -> List.length ratings = 10%nat.
Proof.
  intros E. destruct (Nat.eq_dec (List.length ratings) 10) as [H|H]; [exact H|].
  rewrite (create_career_assessment_none _ H) in E. discriminate.
Qed.

(** C2 (as amended).  [create_career_assessment] fails exactly when the
    ratings do not have ten entries, the length of the benchmark column.
    The names are never compared with the benchmark's: ten ratings are
    accepted whatever their keys, and each key becomes a row. *)
Theorem create_career_assessment_error_iff (ratings : list (str * float)) :
  (create_career_assessment ratings = None <-> List.length ratings <> 10%nat) /\
  (List.length ratings = 10%nat ->
   exists df, create_career_assessment ratings = Some df /\
              map Competencia df = map fst ratings /\
              map SuaAvaliacao df = map snd ratings).
Proof.
  split.
  - split.
    + intros E H. rewrite (create_career_assessment_some _ H) in E. discriminate.
    + apply create_career_assessment_none.
  - intros H. eexists. split; [now apply create_career_assessment_some|].
    destruct (zip3_columns (map fst ratings) (map snd ratings) benchmark_Benchmark)
      as (E1 & E2 & _); [now rewrite !length_map | now rewrite length_map, H |].
    now split.
Qed.

(** C2, the claim as written fails: Culinária is not a competency of the
    benchmark, and ten ratings with it produce a frame with a Culinária row
    and no error. *)
Lemma create_career_assessment_accepts_unknown_competency :
  ~ In (py "Culinária") benchmark_Competencia /\
  In (py "Culinária") (map fst ratings_culinaria) /\
  exists df, create_career_assessment ratings_culinaria = Some df /\
             In (py "Culinária") (map Competencia df).
Proof.
  split; [|split].
  - vm_compute. intuition discriminate.
  - now left.
  - eexists. split; [reflexivity|]. now left.
Qed.

(** Two floats that compare differently with a third are different. *)
Ltac floats_differ :=
  let H := fresh in
  intros H; apply (f_equal Prim2SF) in H; vm_compute in H; discriminate H.

Lemma benchmark_Benchmark_NoDup : NoDup benchmark_Benchmark.
Proof.
  unfold benchmark_Benchmark.
  repeat (constructor;
          [ simpl; intros H;
            repeat (destruct H as [H|H]; [revert H; floats_differ|]); exact H
          | ]).
  constructor.
Qed.

Lemma lists_differ_at {A : Type} (dec : forall x y : A, {x = y} + {x <> y})
  (l1 : list A) : forall l2,
  List.length l1 = List.length l2 -> l1 <> l2 ->
  exists i a b, nth_error l1 i = Some a /\ nth_error l2 i = Some b /\ a <> b.
Proof.
  induction l1 as [|x l1 IH]; intros [|y l2]; simpl; try discriminate.
  - intros _ H. now elim H.
  - intros [= Hlen] Hne. destruct (dec x y) as [->|Hxy].
    + destruct (IH l2 Hlen) as (i & a & b & H1 & H2 & H3).
      * intros ->. now elim Hne.
      * now exists (S i), a, b.
    + now exists 0%nat, x, y.
Qed.

Lemma nth_error_lt_some {A : Type} (l : list A) i :
  (i < List.length l)%nat -> exists a, nth_error l i = Some a.
Proof.
  intros H. destruct (nth_error l i) eqn:E; [now eexists|].
  apply nth_error_None in E. lia.
Qed.

(** C10.  The frame pairs the ratings with the benchmark values by
    position: row [i] holds the [i]-th key and value of [ratings] and the
    [i]-th value of the benchmark list, whatever the key.  Hence two
    mappings with the same keys in different orders attach different market
    averages to some competency. *)
Theorem create_career_assessment_pairs_by_position :
  benchmark_Benchmark
  = [ 3.8; 3.2; 4.1; 3.5; 3.9; 3.4; 4.0; 3.7; 4.2; 3.6 ]%float /\
  (forall ratings, List.length ratings = 10%nat ->
     exists df, create_career_assessment ratings = Some df /\
       forall i k v, nth_error ratings i = Some (k, v) ->
         exists b, nth_error benchmark_Benchmark i = Some b /\
           nth_error df i
           = Some {| Competencia := k; SuaAvaliacao := v;
                     MediaDeMercado := b |}) /\
  (forall r1 r2 df1 df2,
     NoDup (map fst r1) ->
     Permutation (map fst r1) (map fst r2) ->
     map fst r1 <> map fst r2 ->
     create_career_assessment r1 = Some df1 ->
     create_career_assessment r2 = Some df2 ->
     exists x1 x2, In x1 df1 /\ In x2 df2 /\
       Competencia x1 = Competencia x2 /\
       MediaDeMercado x1 <> MediaDeMercado x2) /\
  (exists df1 df2,
     create_career_assessment ratings_iniciais = Some df1 /\
     create_career_assessment ratings_trocadas = Some df2 /\
     Permutation (map fst ratings_iniciais) (map fst ratings_trocadas) /\
     In {| Competencia := py "Engenharia Elétrica"; SuaAvaliacao := 3.0;
           MediaDeMercado := 3.8 |} df1 /\
     In {| Competencia := py "Engenharia Elétrica"; SuaAvaliacao := 3.0;
           MediaDeMercado := 3.2 |} df2).
Proof.
  split; [reflexivity|]. split; [|split].
  - intros ratings Hlen. eexists. split; [now apply create_career_assessment_some|].
    intros i k v Hi.
    assert (Hlt : (i < List.length ratings)%nat)
      by (apply nth_error_Some; rewrite Hi; discriminate).
    rewrite Hlen in Hlt.
    destruct (nth_error_lt_some benchmark_Benchmark i Hlt) as [b Hb].
    exists b. split; [exact Hb|].
    apply zip3_nth_error; [| |exact Hb].
    + now rewrite nth_error_map, Hi.
    + now rewrite nth_error_map, Hi.
  - intros r1 r2 df1 df2 Hnd Hperm Hne E1 E2.
    pose proof (create_career_assessment_length _ _ E1) as L1.
    pose proof (create_career_assessment_length _ _ E2) as L2.
    rewrite (create_career_assessment_some _ L1) in E1.
    rewrite (create_career_assessment_some _ L2) in E2.
    injection E1 as <-. injection E2 as <-.
    destruct (lists_differ_at (A := str) (list_eq_dec N.eq_dec)
                (map fst r1) (map fst r2))
      as (i & a & b & Ha & Hb & Hab);
      [now rewrite !length_map, L1, L2 | exact Hne |].
    assert (Hin : In a (map fst r2)).
    { apply (Permutation_in _ Hperm). eapply nth_error_In; eauto. }
    apply In_nth_error in Hin. destruct Hin as [j Hj].
    assert (Hij : i <> j) by (intros ->; congruence).
    assert (Hi : (i < List.length (map fst r1))%nat)
      by (apply nth_error_Some; rewrite Ha; discriminate).
    assert (Hj' : (j < List.length (map fst r2))%nat)
      by (apply nth_error_Some; rewrite Hj; discriminate).
    rewrite length_map, L1 in Hi. rewrite length_map, L2 in Hj'.
    destruct (nth_error_lt_some benchmark_Benchmark i Hi) as [bi Hbi].
    destruct (nth_error_lt_some benchmark_Benchmark j Hj') as [bj Hbj].
    destruct (nth_error_lt_some (map snd r1) i) as [v1 Hv1];
      [now rewrite length_map, L1|].
    destruct (nth_error_lt_some (map snd r2) j) as [v2 Hv2];
      [now rewrite length_map, L2|].
    pose proof (zip3_nth_error _ _ _ _ _ _ _ Ha Hv1 Hbi) as R1.
    pose proof (zip3_nth_error _ _ _ _ _ _ _ Hj Hv2 Hbj) as R2.
    eexists _, _. split; [eapply nth_error_In; exact R1|].
    split; [eapply nth_error_In; exact R2|]. split; [reflexivity|].
    simpl. intros ->.
    apply Hij. eapply NoDup_nth_error; try apply benchmark_Benchmark_NoDup.
    + exact Hi.
    + now rewrite Hbi, Hbj.
  - eexists _, _. split; [reflexivity|]. split; [reflexivity|]. split.
    + apply perm_swap.
    + split; [now left | right; now left].
Qed.

(** ** Strengths *)

Lemma filter_Subseq {A : Type} (f : A -> bool) (l : list A) :
  Subseq (filter f l) l.
Proof.
  induction l as [|x l IH]; simpl; [constructor|].
  destruct (f x); now constructor.
Qed.

(** C9.  Each row's Diferencial is the binary64 difference of the rating and
    the market average, with nothing rounded; [strengths] keeps, in their
    order, exactly the rows whose Diferencial is greater than 0.5 in the
    strict sense: a rating of 4.5 against 3.8 is kept, 3.8 against 3.8
    (difference 0.0) and 4.0 against 3.5 (difference exactly 0.5) are not. *)
Theorem strengths_are_rows_above_half (df : list comparacao) :
  let rows := com_diferencial df in
  map linha rows = df /\
  Forall (fun r => Diferencial r
                   = (SuaAvaliacao (linha r) - MediaDeMercado (linha r))%float)
         rows /\
  Subseq (strengths rows) rows /\
  (forall r, In r (strengths rows)
             <-> In r rows /\ (0.5 <? Diferencial r)%float = true) /\
  (forall l1 r l2, rows = l1 ++ r :: l2 ->
     strengths rows
     = strengths l1
       ++ (if (0.5 <? Diferencial r)%float then [r] else []) ++ strengths l2) /\
  map (fun r => Competencia (linha r))
      (strengths (com_diferencial
                    [comp "A" 4.5 3.8; comp "B" 3.8 3.8; comp "C" 4.0 3.5]))
  = [py "A"] /\
  (forall x, strengths [ {| linha := x; Diferencial := 0.7 |};
                         {| linha := x; Diferencial := 0.0 |};
                         {| linha := x; Diferencial := 0.5 |} ]
             = [ {| linha := x; Diferencial := 0.7 |} ]).
Proof.
  intros rows. subst rows.
  split; [|split; [|split; [|split; [|split; [|split]]]]].
  - unfold com_diferencial. rewrite map_map. simpl. apply map_id.
  - unfold com_diferencial. apply Forall_forall. intros r Hr.
    apply in_map_iff in Hr. destruct Hr as [x [<- _]]. reflexivity.
  - apply filter_Subseq.
  - intros r. apply filter_In.
  - intros l1 r l2 ->. unfold strengths. rewrite filter_app. simpl.
    now destruct (0.5 <? Diferencial r)%float.
  - reflexivity.
  - reflexivity.
Qed.

(* ================================================================== *)
(** * Further properties *)

(** ** The filter of the academic tab *)

Lemma area_eqb_eq (a b : area) : area_eqb a b = true <-> a = b.
Proof. destruct a, b; simpl; split; intros H; try reflexivity; discriminate. Qed.

Lemma isin_ano_In (x : Z) (l : list Z) : isin_ano x l = true <-> In x l.
Proof.
  unfold isin_ano. rewrite existsb_exists. split.
  - intros (y & Hy & E). apply Z.eqb_eq in E. now subst.
  - intros H. exists x. split; [exact H | apply Z.eqb_refl].
Qed.

Lemma isin_area_In (x : area) (l : list area) : isin_area x l = true <-> In x l.
Proof.
  unfold isin_area. rewrite existsb_exists. split.
  - intros (y & Hy & E). apply area_eqb_eq in E. now subst.
  - intros H. exists x. split; [exact H | now apply area_eqb_eq].
Qed.

Lemma unique_In {A : Type} (eqb : A -> A -> bool)
  (eqb_eq : forall a b, eqb a b = true <-> a = b) (l : list A) (x : A) :
  In x (unique eqb l) <-> In x l.
Proof.
  induction l as [|y l IH]; simpl; [reflexivity|].
  rewrite filter_In, IH. split.
  - intros [H | [H _]]; auto.
  - intros [H | H]; [now left|].
    destruct (eqb x y) eqn:E.
    + left. symmetry. now apply eqb_eq.
    + right. now split.
Qed.

Lemma unique_NoDup {A : Type} (eqb : A -> A -> bool)
  (eqb_eq : forall a b, eqb a b = true <-> a = b) (l : list A) :
  NoDup (unique eqb l).
Proof.
  induction l as [|y l IH]; simpl; constructor.
  - rewrite filter_In. intros [_ H]. apply negb_true_iff in H.
    assert (E : eqb y y = true) by now apply eqb_eq. congruence.
  - now apply NoDup_filter.
Qed.

Lemma filter_all {A : Type} (f : A -> bool) (l : list A) :
  (forall x, In x l -> f x = true) -> filter f l = l.
Proof.
  induction l as [|x l IH]; simpl; intros H; [reflexivity|].
  rewrite (H x (or_introl eq_refl)). f_equal. apply IH. intros y Hy. apply H. now right.
Qed.

Lemma nlargest_In (n : nat) (df : list row) (r : row) :
  In r (nlargest n df) -> In r df.
Proof.
  intros H. apply (Permutation_in _ (por_nota_desc_perm df)).
  unfold nlargest in H. rewrite <- (firstn_skipn n). apply in_or_app. now left.
Qed.

Lemma nlargest_not_nil (n : nat) (df : list row) :
  df <> [] -> nlargest (S n) df <> [].
Proof.
  intros H E. apply (f_equal (@List.length _)) in E. unfold nlargest in E.
  rewrite length_firstn, (Permutation_length (por_nota_desc_perm df)) in E.
  destruct df; [now elim H | simpl in E; discriminate].
Qed.

Lemma tem_Disciplina_true (df : list row) :
  tem_Disciplina df = true <-> forall r, In r df -> Disciplina r <> None.
Proof.
  unfold tem_Disciplina. rewrite forallb_forall. split; intros H r Hr.
  - specialize (H r Hr). destruct (Disciplina r); discriminate.
  - specialize (H r Hr). destruct (Disciplina r); [reflexivity | now elim H].
Qed.

(** The top-ten table of a frame with the column, and of one without. *)
Lemma top_disciplinas_some (df : list row) :
  (forall r, In r df -> Disciplina r <> None) ->
  top_disciplinas df
  = Some (map (fun r => (Disciplina r, Nota r, Creditos r, Area r))
              (nlargest 10 df)).
Proof.
  intros H. unfold top_disciplinas.
  replace (tem_Disciplina (nlargest 10 df)) with true; [reflexivity|].
  symmetry. apply tem_Disciplina_true. intros r Hr. apply H.
  now apply nlargest_In in Hr.
Qed.

Lemma top_disciplinas_none (df : list row) :
  df <> [] -> (forall r, In r df -> Disciplina r = None) ->
  top_disciplinas df = None.
Proof.
  intros N H. unfold top_disciplinas.
  destruct (tem_Disciplina (nlargest 10 df)) eqn:T; [|reflexivity].
  exfalso. rewrite tem_Disciplina_true in T.
  pose proof (nlargest_not_nil 9 df N) as X.
  destruct (nlargest 10 df) as [|r l] eqn:E; [now elim X|].
  apply (T r (or_introl eq_refl)). apply H.
  apply (nlargest_In 10). rewrite E. now left.
Qed.

(** The view of a frame with rows, by its filtered rows. *)
Lemma tab1_cases (df : list row) (anos : list Z) (areas : list area) :
  df <> [] ->
  let filtered := filtrar anos areas df in
  (filtered = [] /\ tab1 df anos areas = SemDadosFiltrados) \/
  (filtered <> [] /\ tem_Disciplina (nlargest 10 filtered) = true /\
   tab1 df anos areas
   = Painel {| p_acumulado := df_acumulado filtered;
               p_total := total_creditos filtered; p_ira := ira filtered;
               p_top := map (fun r => (Disciplina r, Nota r, Creditos r, Area r))
                            (nlargest 10 filtered) |}) \/
  (filtered <> [] /\ tem_Disciplina (nlargest 10 filtered) = false /\
   tab1 df anos areas
   = PainelKeyError (df_acumulado filtered) (total_creditos filtered)
                    (ira filtered)).
Proof.
  intros N filtered. subst filtered. unfold tab1.
  destruct df as [|r0 df']; [now elim N|].
  destruct (filtrar anos areas (r0 :: df')) as [|r l]; [now left | right].
  unfold top_disciplinas. destruct (tem_Disciplina (nlargest 10 (r :: l))).
  - left. split; [discriminate|]. now split.
  - right. split; [discriminate|]. now split.
Qed.

(** X1.  With everything selected, as the two multiselects start, the
    filter keeps the whole frame, so a frame with rows gets the panel,
    computed on all its rows; on a frame without the column [Disciplina]
    the panel ends in the [KeyError] of the top-ten table, after the
    metrics of all the rows.  The options list each year and each area of
    the frame once. *)
Theorem filtrar_default_selection (df : list row) :
  filtrar (opcoes_anos df) (opcoes_areas df) df = df /\
  (df <> [] -> (forall r, In r df -> Disciplina r <> None) ->
   tab1 df (opcoes_anos df) (opcoes_areas df)
   = Painel {| p_acumulado := df_acumulado df; p_total := total_creditos df;
               p_ira := ira df;
               p_top := map (fun r => (Disciplina r, Nota r, Creditos r, Area r))
                            (nlargest 10 df) |}) /\
  (df <> [] -> (forall r, In r df -> Disciplina r = None) ->
   tab1 df (opcoes_anos df) (opcoes_areas df)
   = PainelKeyError (df_acumulado df) (total_creditos df) (ira df)) /\
  (df <> [] ->
   match tab1 df (opcoes_anos df) (opcoes_areas df) with
   | Painel p =>
       p_acumulado p = df_acumulado df /\ p_total p = total_creditos df /\
       p_ira p = ira df /\ top_disciplinas df = Some (p_top p)
   | PainelKeyError a t i =>
       a = df_acumulado df /\ t = total_creditos df /\ i = ira df /\
       top_disciplinas df = None
   | _ => False
   end) /\
  NoDup (opcoes_anos df) /\ NoDup (opcoes_areas df) /\
  (forall a, In a (opcoes_anos df) <-> exists r, In r df /\ Ano r = a) /\
  (forall a, In a (opcoes_areas df) <-> exists r, In r df /\ Area r = a).
Proof.
  assert (F : filtrar (opcoes_anos df) (opcoes_areas df) df = df).
  { unfold filtrar. apply filter_all. intros r Hr. apply andb_true_iff. split.
    - apply isin_ano_In, (unique_In Z.eqb Z.eqb_eq). now apply in_map.
    - apply isin_area_In, (unique_In area_eqb area_eqb_eq). now apply in_map. }
  assert (T : df <> [] ->
              tab1 df (opcoes_anos df) (opcoes_areas df)
              = match top_disciplinas df with
                | Some top =>
                    Painel {| p_acumulado := df_acumulado df;
                              p_total := total_creditos df; p_ira := ira df;
                              p_top := top |}
                | None => PainelKeyError (df_acumulado df) (total_creditos df)
                                         (ira df)
                end).
  { intros H. unfold tab1. rewrite F. destruct df; [now elim H | reflexivity]. }
  split; [exact F|]. split; [|split; [|split]].
  { intros H D. rewrite (T H). now rewrite (top_disciplinas_some df D). }
  { intros H D. rewrite (T H). now rewrite (top_disciplinas_none df H D). }
  { intros H. rewrite (T H). destruct (top_disciplinas df); simpl; auto. }
  unfold opcoes_anos, opcoes_areas.
  split; [|split; [|split]].
  - apply unique_NoDup, Z.eqb_eq.
  - apply unique_NoDup, area_eqb_eq.
  - intros a. rewrite (unique_In Z.eqb Z.eqb_eq), in_map_iff.
    split; intros (r & H1 & H2); exists r; auto.
  - intros a. rewrite (unique_In area_eqb area_eqb_eq), in_map_iff.
    split; intros (r & H1 & H2); exists r; auto.
Qed.

(** X2.  The academic tab shows the "no data" warning exactly for an empty
    frame and the "nothing found" warning exactly when the frame has rows
    but none with a selected year and a selected area (so for an empty
    selection of years or of areas).  Otherwise it shows the panel, which
    is complete exactly when the rows of the top ten have the column
    [Disciplina] and ends in [KeyError] exactly when they do not.  The rows
    behind the panel are rows of the frame, in their order, each with a
    selected year and area. *)
Theorem tab1_views (df : list row) (anos : list Z) (areas : list area) :
  (tab1 df anos areas = SemDados <-> df = []) /\
  (tab1 df anos areas = SemDadosFiltrados <->
   df <> [] /\ forall r, In r df -> ~ (In (Ano r) anos /\ In (Area r) areas)) /\
  ((exists p, tab1 df anos areas = Painel p) <->
   (exists r, In r df /\ In (Ano r) anos /\ In (Area r) areas) /\
   tem_Disciplina (nlargest 10 (filtrar anos areas df)) = true) /\
  ((exists a t i, tab1 df anos areas = PainelKeyError a t i) <->
   (exists r, In r df /\ In (Ano r) anos /\ In (Area r) areas) /\
   tem_Disciplina (nlargest 10 (filtrar anos areas df)) = false) /\
  (forall a t i, tab1 df anos areas = PainelKeyError a t i ->
     a = df_acumulado (filtrar anos areas df) /\
     t = total_creditos (filtrar anos areas df) /\
     i = ira (filtrar anos areas df)) /\
  ((forall r, In r df -> Disciplina r <> None) ->
   (exists r, In r df /\ In (Ano r) anos /\ In (Area r) areas) ->
   exists p, tab1 df anos areas = Painel p) /\
  ((forall r, In r df -> Disciplina r = None) ->
   (exists r, In r df /\ In (Ano r) anos /\ In (Area r) areas) ->
   exists a t i, tab1 df anos areas = PainelKeyError a t i) /\
  (df <> [] -> tab1 df [] areas = SemDadosFiltrados) /\
  (df <> [] -> tab1 df anos [] = SemDadosFiltrados) /\
  Subseq (filtrar anos areas df) df /\
  (forall r, In r (filtrar anos areas df) <->
             In r df /\ In (Ano r) anos /\ In (Area r) areas).
Proof.
  assert (M : forall r, In r (filtrar anos areas df) <->
                        In r df /\ In (Ano r) anos /\ In (Area r) areas).
  { intros r. unfold filtrar. rewrite filter_In, andb_true_iff.
    now rewrite isin_ano_In, isin_area_In. }
  assert (E : forall anos' areas',
             (forall r, In r df -> ~ (In (Ano r) anos' /\ In (Area r) areas')) ->
             filtrar anos' areas' df = []).
  { intros anos' areas' H. unfold filtrar. apply filter_none. intros r Hr.
    apply not_true_is_false. intros T. apply andb_true_iff in T.
    rewrite isin_ano_In, isin_area_In in T. exact (H r Hr T). }
  assert (S : filtrar anos areas df <> [] <->
              exists r, In r df /\ In (Ano r) anos /\ In (Area r) areas).
  { split.
    - intros H. destruct (filtrar anos areas df) as [|r l]; [now elim H|].
      exists r. apply M. now left.
    - intros (r & Hr) F. apply M in Hr. rewrite F in Hr. destruct Hr. }
  assert (D0 : df = [] -> tab1 df anos areas = SemDados) by now intros ->.
  split; [|split; [|split; [|split; [|split; [|split; [|split; [|split; [|split; [|split]]]]]]]]].
  - split; [|exact D0]. intros H. destruct df as [|r0 df']; [reflexivity|].
    destruct (tab1_cases (r0 :: df') anos areas) as [[_ T]|[(_ & _ & T)|(_ & _ & T)]];
      try discriminate; rewrite T in H; discriminate.
  - split.
    + intros H. destruct df as [|r0 df']; [discriminate|].
      split; [discriminate|]. intros r Hr Hs.
      destruct (tab1_cases (r0 :: df') anos areas) as [[F _]|[(F & _ & T)|(F & _ & T)]];
        try discriminate.
      * assert (X : In r (filtrar anos areas (r0 :: df'))) by now apply M.
        rewrite F in X. destruct X.
      * rewrite T in H. discriminate.
      * rewrite T in H. discriminate.
    + intros [N H]. destruct (tab1_cases df anos areas N) as [[_ T]|[(F & _)|(F & _)]];
        [exact T | |]; elim F; now apply E.
  - split.
    + intros [p H]. destruct df as [|r0 df']; [discriminate|].
      destruct (tab1_cases (r0 :: df') anos areas) as [[_ T]|[(F & D & _)|(_ & _ & T)]];
        try discriminate.
      * rewrite T in H. discriminate.
      * split; [now apply S | exact D].
      * rewrite T in H. discriminate.
    + intros [Hs D]. apply S in Hs.
      assert (N : df <> []) by (intros ->; now apply Hs).
      destruct (tab1_cases df anos areas N) as [[F _]|[(_ & _ & T)|(_ & D' & _)]].
      * now elim Hs.
      * eexists. exact T.
      * congruence.
  - split.
    + intros (a & t & i & H). destruct df as [|r0 df']; [discriminate|].
      destruct (tab1_cases (r0 :: df') anos areas) as [[_ T]|[(_ & _ & T)|(F & D & _)]];
        try discriminate.
      * rewrite T in H. discriminate.
      * rewrite T in H. discriminate.
      * split; [now apply S | exact D].
    + intros [Hs D]. apply S in Hs.
      assert (N : df <> []) by (intros ->; now apply Hs).
      destruct (tab1_cases df anos areas N) as [[F _]|[(_ & D' & _)|(_ & _ & T)]].
      * now elim Hs.
      * congruence.
      * do 3 eexists. exact T.
  - intros a t i H. destruct df as [|r0 df']; [discriminate|].
    destruct (tab1_cases (r0 :: df') anos areas) as [[_ T]|[(_ & _ & T)|(_ & _ & T)]];
      try discriminate; rewrite T in H; try discriminate.
    injection H as <- <- <-. auto.
  - intros D Hs. apply S in Hs.
    assert (N : df <> []) by (intros ->; now apply Hs).
    destruct (tab1_cases df anos areas N) as [[F _]|[(_ & _ & T)|(_ & D' & _)]].
    + now elim Hs.
    + eexists. exact T.
    + exfalso.
      assert (X : tem_Disciplina (nlargest 10 (filtrar anos areas df)) = true).
      { apply tem_Disciplina_true. intros r Hr. apply D.
        apply nlargest_In in Hr. now apply M in Hr. }
      congruence.
  - intros D Hs. apply S in Hs.
    assert (N : df <> []) by (intros ->; now apply Hs).
    destruct (tab1_cases df anos areas N) as [[F _]|[(_ & D' & _)|(_ & _ & T)]].
    + now elim Hs.
    + exfalso. rewrite tem_Disciplina_true in D'.
      pose proof (nlargest_not_nil 9 _ Hs) as X.
      destruct (nlargest 10 (filtrar anos areas df)) as [|r l] eqn:L; [now elim X|].
      apply (D' r (or_introl eq_refl)). apply D.
      assert (Hr : In r (filtrar anos areas df))
        by (apply (nlargest_In 10); rewrite L; now left).
      now apply M in Hr.
    + do 3 eexists. exact T.
  - intros H. unfold tab1. destruct df as [|r0 df']; [now elim H|].
    rewrite (E [] areas); [reflexivity|]. intros r _ [[] _].
  - intros H. unfold tab1. destruct df as [|r0 df']; [now elim H|].
    rewrite (E anos []); [reflexivity|]. intros r _ [_ []].
  - apply filter_Subseq.
  - exact M.
Qed.

(** ** Credits per year and their running sum *)

Lemma zsum_app (l1 l2 : list Z) : zsum (l1 ++ l2) = (zsum l1 + zsum l2)%Z.
Proof.
  induction l1 as [|x l1 IH]; simpl; [reflexivity|]. rewrite IH. lia.
Qed.

Lemma creditos_do_ano_snoc (a : Z) (df : list row) (r : row) :
  creditos_do_ano a (df ++ [r])
  = (creditos_do_ano a df + (if (Ano r =? a)%Z then Creditos r else 0))%Z.
Proof.
  unfold creditos_do_ano. rewrite filter_app, map_app, zsum_app. simpl.
  destruct (Ano r =? a)%Z; simpl; lia.
Qed.

Lemma creditos_do_ano_absent (a : Z) (df : list row) :
  (forall r, In r df -> Ano r <> a) -> creditos_do_ano a df = 0%Z.
Proof.
  intros H. unfold creditos_do_ano. rewrite filter_none; [reflexivity|].
  intros r Hr. apply Z.eqb_neq. now apply H.
Qed.

(** What an entry of the groups is after the credits of a row are added. *)
Lemma somar_no_ano_In (ano c : Z) (g : list (Z * Z)) (a s : Z) :
  StronglySorted Z.lt (map fst g) ->
  In (a, s) (somar_no_ano ano c g) ->
  (a = ano /\ ~ In ano (map fst g) /\ s = wrap64 (0 + c)) \/
  (a = ano /\ exists s0, In (ano, s0) g /\ s = wrap64 (s0 + c)) \/
  (a <> ano /\ In (a, s) g).
Proof.
  induction g as [|[a0 s0] g IH]; simpl; intros Hs.
  - intros [[= <- <-]|[]]. left. auto.
  - inversion Hs as [|? ? Hs' Ha]; subst. rewrite Forall_forall in Ha.
    destruct (Z.ltb_spec ano a0) as [Hlt|Hge].
    + intros [[= <- <-] | [[= <- <-] | H]].
      * left. split; [reflexivity|]. split; [|reflexivity].
        intros [E | E]; [lia|]. apply Ha in E. lia.
      * right. right. split; [lia | now left].
      * right. right. split; [|now right].
        intros ->. apply (in_map fst) in H. apply Ha in H. simpl in H. lia.
    + destruct (Z.eqb_spec ano a0) as [->|Hne].
      * intros [[= <- <-] | H].
        -- right. left. split; [reflexivity|]. exists s0. split; [now left | reflexivity].
        -- right. right. split; [|now right].
           intros ->. apply (in_map fst) in H. apply Ha in H. simpl in H. lia.
      * intros [[= <- <-] | H].
        -- right. right. split; [lia | now left].
        -- destruct (IH Hs' H) as [(E1 & E2 & E3) | [(E1 & s1 & E2 & E3) | (E1 & E2)]].
           ++ left. split; [exact E1|]. split; [|exact E3].
              intros [E | E]; [simpl in E; lia | now apply E2].
           ++ right. left. split; [exact E1|]. exists s1. split; [now right | exact E3].
           ++ right. right. split; [exact E1 | now right].
Qed.

Lemma somar_no_ano_has_year (ano c : Z) (g : list (Z * Z)) (a : Z) :
  a = ano \/ In a (map fst g) -> In a (map fst (somar_no_ano ano c g)).
Proof.
  induction g as [|[a0 s0] g IH]; simpl.
  - intros [->|[]]. now left.
  - destruct (Z.ltb_spec ano a0) as [Hlt|Hge]; simpl.
    + intros [->|[<-|H]]; auto.
    + destruct (Z.eqb_spec ano a0) as [->|Hne]; simpl.
      * intros [->|[<-|H]]; auto.
      * intros [->|[<-|H]]; auto.
Qed.

Lemma grupos_de_step (g : list (Z * Z)) (df : list row) (r : row) :
  grupos_de g df ->
  grupos_de (somar_no_ano (Ano r) (Creditos r) g) (df ++ [r]).
Proof.
  intros (Hs & Hy & Hg). split; [|split].
  - now apply somar_no_ano_ascending.
  - intros r' Hr'. apply somar_no_ano_has_year. apply in_app_or in Hr'.
    destruct Hr' as [H | [<- | []]]; [right; now apply Hy | now left].
  - intros a s H. rewrite creditos_do_ano_snoc.
    destruct (somar_no_ano_In _ _ _ _ _ Hs H)
      as [(-> & E2 & ->) | [(-> & s0 & E2 & ->) | (E1 & E2)]].
    + rewrite Z.eqb_refl. split.
      * rewrite creditos_do_ano_absent; [reflexivity|].
        intros r' Hr' E. apply E2. rewrite <- E. now apply Hy.
      * exists r. split; [apply in_or_app; right; now left | reflexivity].
    + rewrite Z.eqb_refl. destruct (Hg _ _ E2) as [-> _]. split.
      * apply wrap64_add_l.
      * exists r. split; [apply in_or_app; right; now left | reflexivity].
    + destruct (Hg _ _ E2) as [-> (r' & Hr' & Er')]. split.
      * destruct (Z.eqb_spec (Ano r) a) as [E|_]; [now elim E1|].
        now rewrite Z.add_0_r.
      * exists r'. split; [apply in_or_app; now left | exact Er'].
Qed.

Lemma grupos_de_fold (df : list row) : forall g df0,
  grupos_de g df0 ->
  grupos_de (fold_left (fun g r => somar_no_ano (Ano r) (Creditos r) g) df g)
            (df0 ++ df).
Proof.
  induction df as [|r df IH]; intros g df0 H; simpl.
  - now rewrite app_nil_r.
  - replace (df0 ++ r :: df) with ((df0 ++ [r]) ++ df)
      by (rewrite <- app_assoc; reflexivity).
    apply IH. now apply grupos_de_step.
Qed.

(** X3.  The groupby has one group per year of the frame, in ascending
    order of the year, and the credits of a group are the sum (as an
    [int64]) of the credits of the rows of that year. *)
Theorem groupby_Ano_sum_per_year (df : list row) :
  let g := groupby_Ano_sum df in
  StronglySorted Z.lt (map fst g) /\
  (forall a, In a (map fst g) <-> exists r, In r df /\ Ano r = a) /\
  (forall a s, In (a, s) g -> s = wrap64 (creditos_do_ano a df)) /\
  groupby_Ano_sum [ disciplina "A" 8 4 2021; disciplina "B" 7 2 2019;
                    disciplina "C" 9 6 2021; disciplina "D" 5 4 2020 ]
  = [ (2019, 2); (2020, 4); (2021, 10) ]%Z.
Proof.
  intros g.
  assert (G : grupos_de g ([] ++ df)).
  { apply grupos_de_fold. split; [constructor|]. split; [intros r []|intros a s []]. }
  simpl in G. destruct G as (Hs & Hy & Hg).
  split; [exact Hs|]. split; [|split].
  - intros a. split.
    + intros H. apply in_map_iff in H. destruct H as ([a' s] & <- & H).
      exact (proj2 (Hg _ _ H)).
    + intros (r & Hr & <-). now apply Hy.
  - intros a s H. exact (proj1 (Hg _ _ H)).
  - reflexivity.
Qed.

Lemma cumsum_from_app (l1 l2 : list Z) : forall acc,
  cumsum_from acc (l1 ++ l2)
  = cumsum_from acc l1
    ++ cumsum_from (fold_left (fun a x => wrap64 (a + x)) l1 acc) l2.
Proof.
  induction l1 as [|x l1 IH]; intros acc; simpl; [reflexivity|].
  now rewrite IH.
Qed.

Lemma cumsum_from_nth (l : list Z) : forall acc i x,
  nth_error (cumsum_from (wrap64 acc) l) i = Some x ->
  x = wrap64 (acc + zsum (firstn (S i) l)).
Proof.
  induction l as [|y l IH]; intros acc [|i] x; simpl; try discriminate.
  - intros [= <-]. rewrite wrap64_add_l. f_equal. destruct l; simpl; lia.
  - intros H. rewrite wrap64_add_l in H. apply IH in H. rewrite H. f_equal.
    simpl. lia.
Qed.

Lemma combine_map_fst {A B : Type} (l1 : list A) (l2 : list B) :
  List.length l1 = List.length l2 -> map fst (combine l1 l2) = l1.
Proof.
  revert l2. induction l1 as [|a l1 IH]; intros [|b l2]; simpl;
    try discriminate; [reflexivity|].
  intros [= H]. now rewrite IH.
Qed.

Lemma combine_map_snd {A B : Type} (l1 : list A) (l2 : list B) :
  List.length l1 = List.length l2 -> map snd (combine l1 l2) = l2.
Proof.
  revert l2. induction l1 as [|a l1 IH]; intros [|b l2]; simpl;
    try discriminate; [reflexivity|].
  intros [= H]. now rewrite IH.
Qed.

Lemma df_acumulado_columns (df : list row) :
  map (fun a => (ac_Ano a, ac_Creditos a)) (df_acumulado df) = groupby_Ano_sum df /\
  map ac_Acumulado (df_acumulado df) = cumsum (map snd (groupby_Ano_sum df)).
Proof.
  unfold df_acumulado. set (g := groupby_Ano_sum df).
  assert (L : List.length g = List.length (cumsum (map snd g)))
    by (unfold cumsum; now rewrite cumsum_from_length, length_map).
  rewrite !map_map. split.
  - transitivity (map fst (combine g (cumsum (map snd g))));
      [|now apply combine_map_fst].
    apply map_ext. now intros [[ano c] acc].
  - transitivity (map snd (combine g (cumsum (map snd g))));
      [|now apply combine_map_snd].
    apply map_ext. now intros [[ano c] acc].
Qed.

Lemma cumsum_last (l : list Z) (x : Z) :
  cumsum (l ++ [x]) = cumsum l ++ [isum (l ++ [x])].
Proof.
  unfold cumsum, isum. rewrite cumsum_from_app. simpl.
  now rewrite fold_left_app.
Qed.

(** The accumulated credits of the last year are the total. *)
Lemma df_acumulado_last (df : list row) (l : list acumulado) (a : acumulado) :
  df_acumulado df = l ++ [a] -> ac_Acumulado a = total_creditos df.
Proof.
  destruct (df_acumulado_columns df) as [C1 C2].
  assert (C3 : map ac_Creditos (df_acumulado df) = map snd (groupby_Ano_sum df)).
  { rewrite <- C1, map_map. reflexivity. }
  intros E. unfold total_creditos. rewrite <- C3.
  rewrite <- C3, E, !map_app in C2. simpl in C2.
  rewrite cumsum_last in C2. apply app_inj_tail in C2.
  rewrite E, map_app. simpl. exact (proj2 C2).
Qed.

(** X4.  [df_acumulado] has the rows of the groupby, one per year; the
    accumulated credits of row [i] are the sum (as an [int64]) of the
    credits of the years up to it, and those of the last row are the total
    of the credits. *)
Theorem df_acumulado_running_sum (df : list row) :
  map (fun a => (ac_Ano a, ac_Creditos a)) (df_acumulado df) = groupby_Ano_sum df /\
  (forall i a, nth_error (df_acumulado df) i = Some a ->
     ac_Acumulado a
     = wrap64 (zsum (firstn (S i) (map ac_Creditos (df_acumulado df))))) /\
  (forall l a, df_acumulado df = l ++ [a] ->
     ac_Acumulado a = total_creditos df) /\
  map (fun a => (ac_Ano a, ac_Creditos a, ac_Acumulado a))
      (df_acumulado [ disciplina "A" 8 4 2021; disciplina "B" 7 2 2019;
                      disciplina "C" 9 6 2021; disciplina "D" 5 4 2020 ])
  = [ (2019, 2, 2); (2020, 4, 6); (2021, 10, 16) ]%Z.
Proof.
  destruct (df_acumulado_columns df) as [C1 C2].
  assert (C3 : map ac_Creditos (df_acumulado df) = map snd (groupby_Ano_sum df)).
  { rewrite <- C1, map_map. reflexivity. }
  split; [exact C1|]. split; [|split].
  - intros i a H. rewrite C3.
    assert (H' : nth_error (map ac_Acumulado (df_acumulado df)) i
                 = Some (ac_Acumulado a)) by (rewrite nth_error_map, H; reflexivity).
    rewrite C2 in H'. unfold cumsum in H'.
    apply (cumsum_from_nth _ 0) in H'. exact H'.
  - apply df_acumulado_last.
  - reflexivity.
Qed.

(** ** The frame of [load_data] *)

Lemma Qfloor_add_1 (x : Q) : Qfloor (x + 1) = (Qfloor x + 1)%Z.
Proof.
  destruct x as [n d]. unfold Qplus, Qfloor. simpl Qnum. simpl Qden.
  rewrite Pos.mul_1_r, Z.mul_1_r.
  now rewrite Z.div_add by discriminate.
Qed.

Lemma Qfloor_div15_step (v w : Q) :
  (w == v + 15)%Q -> Qfloor (w / 15) = (Qfloor (v / 15) + 1)%Z.
Proof.
  intros E. rewrite <- Qfloor_add_1. apply Qfloor_comp. rewrite E. field.
Qed.

Section LoadDataMore.
Variable upper_ext : N -> list N.

(** The frame is empty or has a row for each line of a table. *)
Lemma load_data_cases (f : arquivo) :
  load_data upper_ext f = [] \/
  exists csv, f = Tabela csv /\
    Forall2 (fun r rec => normalizar upper_ext r = Some rec)
            csv (load_data upper_ext f).
Proof.
  destruct f as [| |csv]; [now left | now left |].
  unfold load_data, try_load_data.
  destruct (traverse (normalizar upper_ext) csv) as [df|] eqn:E; [|now left].
  right. exists csv. split; [reflexivity|]. now apply traverse_Forall2.
Qed.

(** No row of the frame lacks a grade. *)
Lemma load_data_nota_not_nan (f : arquivo) :
  Forall (fun rec => is_nan (Nota rec) = false) (load_data upper_ext f).
Proof.
  destruct (load_data_cases f) as [-> | (csv & _ & E)]; [constructor|].
  induction E as [|r rec csv' df' H _ IH]; constructor; [|exact IH].
  destruct (normalizar_fields upper_ext r rec H) as (_ & _ & _ & E4 & _).
  rewrite E4. apply fillna0_not_nan.
Qed.

(** X5.  Whatever the file holds, every row of the frame [load_data]
    returns has a grade and hours that are numbers (never NaN), finite
    hours, credits within [int64], and the area [categorizar_area] gives
    its code and name.  The credits are the floor of the hours over 15
    while the hours are within [2^53] in magnitude; they are negative
    whenever the hours are, not negative for hours from 0 to [2^63], and
    beyond not negative or, by the cast of a quotient outside [int64],
    [min_int64].  The frame is either empty or has the lines of the table
    in their order, with code, name and year as in the file. *)
Theorem load_data_frame_invariants (f : arquivo) :
  let df := load_data upper_ext f in
  Forall (fun rec =>
            is_nan (Nota rec) = false /\ is_nan (Horas rec) = false /\
            is_infinity (Horas rec) = false /\
            (min_int64 <= Creditos rec <= max_int64)%Z /\
            (exists v, float_val (Horas rec) = Some v /\
               ((- inject_Z (2 ^ 53) <= v)%Q -> (v <= inject_Z (2 ^ 53))%Q ->
                Creditos rec = Qfloor (v / 15)) /\
               ((v < 0)%Q -> (Creditos rec < 0)%Z) /\
               ((0 <= v)%Q -> (v <= inject_Z (2 ^ 63))%Q ->
                (0 <= Creditos rec)%Z) /\
               ((0 <= v)%Q ->
                (0 <= Creditos rec)%Z \/ Creditos rec = min_int64)) /\
            Area rec = categorizar_area upper_ext (Codigo rec) (Disciplina rec))
         df /\
  (df = [] \/
   exists csv, f = Tabela csv /\
     map Codigo df = map csv_Codigo csv /\
     map Disciplina df = map csv_Disciplina csv /\
     map Ano df = map csv_Ano csv).
Proof.
  intros df. subst df.
  destruct (load_data_cases f) as [-> | (csv & Ef & E)];
    [split; [constructor | now left]|].
  split.
  - clear Ef. induction E as [|r rec csv' df' H _ IH]; constructor; [|exact IH].
    destruct (normalizar_fields upper_ext r rec H) as (E1 & E2 & E3 & E4 & E5 & E6 & E7).
    destruct (normalizar_creditos upper_ext r rec H) as (R & v & V & C).
    split; [rewrite E4; apply fillna0_not_nan|].
    split; [rewrite E5; apply fillna0_not_nan|].
    split.
    + destruct (is_infinity (Horas rec)) eqn:I; [|reflexivity].
      assert (N : float_val (Horas rec) = None)
        by (apply float_val_none; now right).
      congruence.
    + split; [exact R|]. split; [now exists v|]. now rewrite E1, E2.
  - right. exists csv. split; [exact Ef|]. clear Ef.
    induction E as [|r rec csv' df' H _ IH]; simpl; [auto|].
    destruct (normalizar_fields upper_ext r rec H) as (E1 & E2 & E3 & _).
    destruct IH as (I1 & I2 & I3). now rewrite E1, E2, E3, I1, I2, I3.
Qed.

(** X6.  [load_data] returns the empty frame exactly when the file cannot
    be read as a table, when the table lacks the column [Nota] or the
    column [Horas], when it has no lines, or when the hours of some line
    are infinite: the cast of that one line raises, the exception is
    caught, and the lines that are in order are lost with it. *)
Theorem load_data_empty_iff (f : arquivo) :
  load_data upper_ext f = [] <->
  f = Ilegivel \/ f = SemNotaOuHoras \/
  exists csv, f = Tabela csv /\
    (csv = [] \/ existsb horas_infinitas csv = true).
Proof.
  destruct f as [| |csv].
  - split; [now left | reflexivity].
  - split; [right; now left | reflexivity].
  - split.
    + intros E. right. right. exists csv. split; [reflexivity|].
      destruct (existsb horas_infinitas csv) eqn:X; [now right | left].
      pose proof (load_data_rows upper_ext csv X) as F. rewrite E in F.
      now inversion F.
    + intros [H | [H | (csv' & [= <-] & [-> | X])]]; try discriminate;
        [reflexivity | now apply load_data_infinite_hours].
Qed.

(** X7.  More hours never give fewer credits, and 15 hours more give
    exactly one credit more (for hours of magnitude up to [2^53]). *)
Theorem creditos_monotone_in_hours
  (r1 r2 : csv_row) (h1 h2 : float) (v1 v2 : Q) :
  csv_Horas r1 = Numeric h1 -> float_val h1 = Some v1 ->
  csv_Horas r2 = Numeric h2 -> float_val h2 = Some v2 ->
  (- inject_Z (2 ^ 53) <= v1)%Q -> (v1 <= v2)%Q -> (v2 <= inject_Z (2 ^ 53))%Q ->
  exists rec1 rec2,
    normalizar upper_ext r1 = Some rec1 /\ normalizar upper_ext r2 = Some rec2 /\
    (Creditos rec1 <= Creditos rec2)%Z /\
    ((v2 == v1 + 15)%Q -> Creditos rec2 = (Creditos rec1 + 1)%Z).
Proof.
  intros H1 V1 H2 V2 Lo Le Hi.
  destruct (normalizar_finite_hours upper_ext r1 h1 v1 H1 V1 Lo)
    as (rec1 & E1 & _ & _ & C1); [now apply Qle_trans with v2|].
  destruct (normalizar_finite_hours upper_ext r2 h2 v2 H2 V2)
    as (rec2 & E2 & _ & _ & C2); [now apply Qle_trans with v1 | exact Hi |].
  exists rec1, rec2. split; [exact E1|]. split; [exact E2|]. rewrite C1, C2. split.
  - now apply Qfloor_div15_mono.
  - apply Qfloor_div15_step.
Qed.
End LoadDataMore.

(** X7 at 30 and 45 hours. *)
Lemma creditos_monotone_in_hours_witness :
  exists rec1 rec2,
    normalizar no_ext (linha_csv (Numeric 7.5) (Numeric 30)) = Some rec1 /\
    normalizar no_ext (linha_csv (Numeric 7.5) (Numeric 45)) = Some rec2 /\
    Creditos rec2 = (Creditos rec1 + 1)%Z.
Proof.
  destruct (creditos_monotone_in_hours no_ext
              (linha_csv (Numeric 7.5) (Numeric 30))
              (linha_csv (Numeric 7.5) (Numeric 45))
              30%float 45%float _ _ eq_refl eq_refl eq_refl eq_refl)
    as (rec1 & rec2 & E1 & E2 & _ & H);
    [discriminate | discriminate | discriminate |].
  exists rec1, rec2. split; [exact E1|]. split; [exact E2|].
  apply H. reflexivity.
Defined.

(** ** The area of a row, again *)

Lemma primeira_regra_cases codigo disciplina items :
  (primeira_regra codigo disciplina items = Outras /\
   Forall (fun kv => ~ aplica codigo disciplina (fst kv)) items) \/
  (exists pre key post,
      items = pre ++ (key, primeira_regra codigo disciplina items) :: post /\
      Forall (fun kv => ~ aplica codigo disciplina (fst kv)) pre /\
      aplica codigo disciplina key).
Proof.
  induction items as [|[k v] items IH]; simpl.
  - left. split; [reflexivity | constructor].
  - destruct (startswith codigo k || contains disciplina k) eqn:E.
    + right. exists [], k, items. split; [reflexivity|]. split; [constructor|].
      now apply aplica_iff.
    + assert (N : ~ aplica codigo disciplina k).
      { intros H. apply aplica_iff in H. congruence. }
      destruct IH as [[E1 F] | (pre & key & post & E1 & F & H)].
      * left. split; [exact E1 | now constructor].
      * right. exists ((k, v) :: pre), key, post. split; [|split].
        -- simpl. now rewrite <- E1.
        -- now constructor.
        -- exact H.
Qed.

Lemma aplica_length codigo disciplina key :
  aplica codigo disciplina key ->
  (List.length key <= List.length codigo)%nat \/
  (List.length key <= List.length disciplina)%nat.
Proof.
  intros [[t ->] | (a & b & ->)]; [left | right]; rewrite !length_app; lia.
Qed.

Section CategorizarMore.
Variable upper_ext : N -> list N.

Let up (v : option cell) : str := upper upper_ext (py_str (get_or_empty v)).

(** X8.  The area is Outras exactly when none of the seven keys applies to
    the row; any other area is the value of a key that applies.  So a row
    whose upper-cased code and name are both shorter than three characters
    is Outras, as is a row without the two columns or with both cells
    empty (their text is "" or "nan"). *)
Theorem categorizar_area_Outras_iff (Codigo Disciplina : option cell) :
  let res := categorizar_area upper_ext Codigo Disciplina in
  (res = Outras <->
   Forall (fun kv => ~ aplica (up Codigo) (up Disciplina) (fst kv)) mapeamento) /\
  (res <> Outras ->
   exists key, In (key, res) mapeamento /\ aplica (up Codigo) (up Disciplina) key) /\
  ((List.length (up Codigo) < 3)%nat -> (List.length (up Disciplina) < 3)%nat ->
   res = Outras) /\
  categorizar_area upper_ext None None = Outras /\
  categorizar_area upper_ext (Some Empty) (Some Empty) = Outras /\
  categorizar_area upper_ext (Some (Text [])) (Some (Text [])) = Outras.
Proof.
  intros res. subst res. unfold categorizar_area. fold (up Codigo) (up Disciplina).
  set (c := up Codigo). set (d := up Disciplina).
  assert (V : Forall (fun kv => snd kv <> Outras /\ (3 <= List.length (fst kv))%nat)
                     mapeamento).
  { repeat constructor; simpl; try discriminate; lia. }
  rewrite Forall_forall in V.
  destruct (primeira_regra_cases c d mapeamento)
    as [[E F] | (pre & key & post & E & F & H)].
  - split; [tauto|]. split; [congruence|]. split; [auto|]. repeat split.
  - assert (I : In (key, primeira_regra c d mapeamento) mapeamento).
    { rewrite E at 2. apply in_or_app. right. now left. }
    destruct (V _ I) as [NO L]. simpl in NO, L.
    split; [|split; [|split; [|repeat split]]].
    + split; [intros X; now elim NO|].
      intros X. rewrite Forall_forall in X. elim (X _ I). exact H.
    + intros _. now exists key.
    + intros Lc Ld. destruct (aplica_length _ _ _ H); lia.
Qed.
End CategorizarMore.

(** ** The session of the career tab *)

Lemma str_eqb_eq (a b : str) : str_eqb a b = true <-> a = b.
Proof.
  unfold str_eqb. destruct (list_eq_dec N.eq_dec a b); split; auto; discriminate.
Qed.

Lemma str_eqb_refl (a : str) : str_eqb a a = true.
Proof. now apply str_eqb_eq. Qed.

Lemma dict_get_some (k : str) (d : list (str * float)) :
  In k (map fst d) -> exists v, dict_get k d = Some v.
Proof.
  induction d as [|[k' v'] d IH]; simpl; [intros []|].
  intros [E | H].
  - subst. rewrite str_eqb_refl. now eexists.
  - destruct (str_eqb k k'); [now eexists | now apply IH].
Qed.

Lemma dict_set_keys (k : str) (v : float) (d : list (str * float)) :
  In k (map fst d) -> map fst (dict_set k v d) = map fst d.
Proof.
  induction d as [|[k' v'] d IH]; simpl; [intros []|].
  intros H. destruct (str_eqb k k') eqn:E; simpl; [reflexivity|].
  f_equal. apply IH. destruct H as [H | H]; [|exact H].
  subst. rewrite str_eqb_refl in E. discriminate.
Qed.

Lemma dict_get_set (k k0 : str) (v : float) (d : list (str * float)) :
  dict_get k (dict_set k0 v d)
  = if str_eqb k k0 then Some v else dict_get k d.
Proof.
  induction d as [|[k' v'] d IH]; simpl; [reflexivity|].
  destruct (str_eqb k0 k') eqn:E0; simpl.
  - apply str_eqb_eq in E0. subst k'. now destruct (str_eqb k k0).
  - rewrite IH. destruct (str_eqb k k') eqn:E1; [|reflexivity].
    apply str_eqb_eq in E1. subst k'.
    destruct (str_eqb k k0) eqn:E2; [|reflexivity].
    apply str_eqb_eq in E2. subst k0. rewrite str_eqb_refl in E0. discriminate.
Qed.

(** The loop over the sliders on a dictionary that has the keys. *)
Lemma ler_sliders_spec (widgets : str -> option float) (ks : list str) :
  forall d, NoDup ks -> incl ks (map fst d) ->
  exists d', ler_sliders widgets ks d = Some d' /\
    map fst d' = map fst d /\
    forall k, dict_get k d'
              = if existsb (str_eqb k) ks
                then option_map (slider (widgets k)) (dict_get k d)
                else dict_get k d.
Proof.
  induction ks as [|k0 ks IH]; intros d Hnd Hin; simpl.
  - exists d. auto.
  - inversion Hnd as [|? ? Hk0 Hnd']; subst.
    destruct (dict_get_some k0 d) as [cur Hcur]; [apply Hin; now left|].
    rewrite Hcur.
    assert (K : map fst (dict_set k0 (slider (widgets k0) cur) d) = map fst d)
      by (apply dict_set_keys, Hin; now left).
    destruct (IH (dict_set k0 (slider (widgets k0) cur) d) Hnd')
      as (d' & E & Hk & Hv).
    { rewrite K. intros x Hx. apply Hin. now right. }
    exists d'. split; [exact E|]. split; [now rewrite Hk|].
    intros k. rewrite Hv, dict_get_set.
    destruct (str_eqb k k0) eqn:E0; simpl.
    + apply str_eqb_eq in E0. subst k0.
      replace (existsb (str_eqb k) ks) with false; [now rewrite Hcur|].
      symmetry. apply not_true_is_false. intros X. apply existsb_exists in X.
      destruct X as (x & Hx & Ex). apply str_eqb_eq in Ex. now subst.
    + reflexivity.
Qed.

Lemma benchmark_Competencia_NoDup : NoDup benchmark_Competencia.
Proof.
  vm_compute.
  repeat (constructor; [simpl; intuition discriminate|]). constructor.
Qed.

Lemma ratings_iniciais_keys : map fst ratings_iniciais = benchmark_Competencia.
Proof. reflexivity. Qed.

(** A run of the tab on ratings that have the ten competencies. *)
Lemma tab2_on_competencies (widgets : str -> option float)
  (s : option (list (str * float))) :
  map fst (ratings_da_sessao s) = benchmark_Competencia ->
  exists ratings dfc,
    tab2 widgets s = Tab2Ok ratings dfc (strengths dfc) /\
    map fst ratings = benchmark_Competencia /\
    (forall k, In k benchmark_Competencia ->
       exists old, dict_get k (ratings_da_sessao s) = Some old /\
                   dict_get k ratings = Some (slider (widgets k) old)) /\
    map (fun r => (Competencia (linha r), SuaAvaliacao (linha r))) dfc = ratings /\
    map (fun r => (Competencia (linha r), MediaDeMercado (linha r))) dfc
    = combine benchmark_Competencia benchmark_Benchmark.
Proof.
  intros K. unfold tab2. set (r0 := ratings_da_sessao s) in *.
  destruct (ler_sliders_spec widgets (map fst r0) r0) as (r1 & E & K1 & V).
  { rewrite K. apply benchmark_Competencia_NoDup. }
  { apply incl_refl. }
  rewrite E. rewrite K in K1.
  assert (L : List.length r1 = 10%nat).
  { rewrite <- (length_map fst), K1. reflexivity. }
  rewrite (create_career_assessment_some r1 L).
  exists r1, (com_diferencial (zip3 (map fst r1) (map snd r1) benchmark_Benchmark)).
  split; [reflexivity|]. split; [exact K1|].
  destruct (zip3_columns (map fst r1) (map snd r1) benchmark_Benchmark)
    as (Z1 & Z2 & Z3); [now rewrite !length_map | now rewrite length_map, L|].
  split; [|split].
  - intros k Hk. destruct (dict_get_some k r0) as [old Ho]; [now rewrite K|].
    exists old. split; [exact Ho|]. rewrite V, Ho.
    replace (existsb (str_eqb k) (map fst r0)) with true; [reflexivity|].
    symmetry. apply existsb_exists. exists k. rewrite K.
    split; [exact Hk | apply str_eqb_refl].
  - unfold com_diferencial. rewrite map_map. simpl.
    transitivity (combine (map Competencia (zip3 (map fst r1) (map snd r1) benchmark_Benchmark))
                          (map SuaAvaliacao (zip3 (map fst r1) (map snd r1) benchmark_Benchmark))).
    + generalize (zip3 (map fst r1) (map snd r1) benchmark_Benchmark).
      intros l. induction l as [|x l IH]; simpl; [reflexivity | now rewrite IH].
    + rewrite Z1, Z2. clear. induction r1 as [|[k v] r1 IH]; simpl;
        [reflexivity | now rewrite IH].
  - unfold com_diferencial. rewrite map_map. simpl.
    transitivity (combine (map Competencia (zip3 (map fst r1) (map snd r1) benchmark_Benchmark))
                          (map MediaDeMercado (zip3 (map fst r1) (map snd r1) benchmark_Benchmark))).
    + generalize (zip3 (map fst r1) (map snd r1) benchmark_Benchmark).
      intros l. induction l as [|x l IH]; simpl; [reflexivity | now rewrite IH].
    + now rewrite Z1, Z3, K1.
Qed.

Lemma sessao_keys (s : option (list (str * float))) :
  sessao s -> map fst (ratings_da_sessao s) = benchmark_Competencia.
Proof.
  induction 1 as [|widgets s ratings dfc dest _ IH E]; [reflexivity|].
  destruct (tab2_on_competencies widgets s IH) as (r1 & dfc1 & E1 & K1 & _).
  rewrite E1 in E. injection E as <- _ _. exact K1.
Qed.

(** X9.  In every session state the program reaches, however many times
    the script has run and wherever the sliders stand, the ratings have the
    ten competencies of the benchmark in its order; the next run raises
    neither [KeyError] nor [ValueError], stores the value of each slider
    under its competency, and builds a comparison frame in which every
    competency stands beside its own market average. *)
Theorem tab2_session_keeps_competencies
  (s : option (list (str * float))) (widgets : str -> option float) :
  sessao s ->
  map fst (ratings_da_sessao s) = benchmark_Competencia /\
  exists ratings dfc,
    tab2 widgets s = Tab2Ok ratings dfc (strengths dfc) /\
    sessao (Some ratings) /\
    map fst ratings = benchmark_Competencia /\
    (forall k, In k benchmark_Competencia ->
       exists old, dict_get k (ratings_da_sessao s) = Some old /\
                   dict_get k ratings = Some (slider (widgets k) old)) /\
    map (fun r => (Competencia (linha r), SuaAvaliacao (linha r))) dfc = ratings /\
    map (fun r => (Competencia (linha r), MediaDeMercado (linha r))) dfc
    = combine benchmark_Competencia benchmark_Benchmark.
Proof.
  intros H. pose proof (sessao_keys s H) as K. split; [exact K|].
  destruct (tab2_on_competencies widgets s K) as (r1 & dfc & E & K1 & V & C1 & C2).
  exists r1, dfc. split; [exact E|]. split; [|auto].
  exact (sessao_apos widgets s r1 dfc (strengths dfc) H E).
Qed.

(** X9 at the first run of a session, with every slider moved to 4.5. *)
Lemma tab2_session_keeps_competencies_witness :
  exists ratings dfc,
    tab2 (fun _ => Some 4.5%float) None = Tab2Ok ratings dfc (strengths dfc) /\
    map fst ratings = benchmark_Competencia /\
    map snd ratings = repeat 4.5%float 10.
Proof.
  destruct (tab2_session_keeps_competencies None (fun _ => Some 4.5%float)
              sessao_nova)
    as (_ & ratings & dfc & E & _ & K & _).
  exists ratings, dfc. split; [exact E|]. split; [exact K|].
  vm_compute in E. injection E as <- _. reflexivity.
Defined.

(** ** Integers as floats *)

Lemma digits2_pos_iter (p q : positive) :
  digits2_pos (Pos.iter xO p q) = (digits2_pos p + q)%positive.
Proof.
  induction q as [|q IH] using Pos.peano_ind.
  - simpl. now rewrite Pos.add_1_r.
  - rewrite Pos.iter_succ. simpl. rewrite IH. now rewrite Pos.add_succ_r.
Qed.

Lemma digits2_pos_lower (p : positive) :
  (2 ^ (Z.pos (digits2_pos p) - 1) <= Z.pos p)%Z.
Proof.
  induction p as [p IH|p IH|]; simpl digits2_pos.
  - rewrite Pos2Z.inj_succ.
    replace (Z.succ (Z.pos (digits2_pos p)) - 1)%Z
      with (Z.succ (Z.pos (digits2_pos p) - 1))%Z by lia.
    rewrite Z.pow_succ_r by lia. lia.
  - rewrite Pos2Z.inj_succ.
    replace (Z.succ (Z.pos (digits2_pos p)) - 1)%Z
      with (Z.succ (Z.pos (digits2_pos p) - 1))%Z by lia.
    rewrite Z.pow_succ_r by lia. lia.
  - simpl. lia.
Qed.

Lemma digits2_pos_le_53 (p : positive) :
  (Z.pos p < 2 ^ 53)%Z -> (Z.pos (digits2_pos p) <= 53)%Z.
Proof.
  intros H. pose proof (digits2_pos_lower p) as L.
  destruct (Z.le_gt_cases (Z.pos (digits2_pos p)) 53) as [X|X]; [exact X|].
  exfalso. assert (2 ^ 53 <= 2 ^ (Z.pos (digits2_pos p) - 1))%Z
    by (apply Z.pow_le_mono_r; lia). lia.
Qed.

Ltac fexp_lia := unfold fexp, SpecFloat.emin, prec, emax; lia.

(** A mantissa of 53 bits with an exponent in range is not rounded. *)
Lemma binary_round_aux_exact (s : bool) (m : positive) (e : Z) :
  digits2_pos m = 53%positive -> (-1074 <= e <= 971)%Z ->
  binary_round_aux prec emax s (Z.pos m) e loc_Exact = S754_finite s m e.
Proof.
  intros D He. unfold binary_round_aux, shr_fexp, Zdigits2. rewrite D.
  match goal with |- context [shr _ e ?n] =>
    assert (F : n = 0%Z) by fexp_lia; rewrite F end.
  cbn [shr shr_record_of_loc shr_m loc_of_shr_record round_nearest_even].
  rewrite D, F. cbn [shr shr_m].
  match goal with |- context [Z.leb e ?n] =>
    destruct (Z.leb_spec e n) as [_|X]; [reflexivity | unfold prec, emax in X; lia]
  end.
Qed.

Lemma Pos_iter_xO (p q : positive) :
  Z.pos (Pos.iter xO p q) = (Z.pos p * 2 ^ Z.pos q)%Z.
Proof.
  induction q as [|q IH] using Pos.peano_ind.
  - simpl. lia.
  - rewrite Pos.iter_succ, Pos2Z.inj_succ, Z.pow_succ_r by lia.
    rewrite Pos2Z.inj_xO, IH. lia.
Qed.

(** The float of a non-zero integer of magnitude below [2^53] is finite,
    with the sign of the integer, and has its value. *)
Lemma binary_round_small (s : bool) (p : positive) :
  (Z.pos p < 2 ^ 53)%Z ->
  exists m e, binary_round prec emax s p 0 = S754_finite s m e /\
              valid_binary (S754_finite s m e) = true /\
              (e <= 0)%Z /\ Z.pos m = (Z.pos p * 2 ^ (- e))%Z.
Proof.
  intros H. pose proof (digits2_pos_le_53 p H) as D.
  unfold binary_round, shl_align.
  match goal with |- context [IntDef.Z.sub ?a 0%Z] =>
    assert (F : IntDef.Z.sub a 0%Z = (Z.pos (digits2_pos p) - 53)%Z) by fexp_lia;
    assert (F' : a = (Z.pos (digits2_pos p) - 53)%Z) by fexp_lia;
    rewrite F, F'
  end.
  destruct (Z.pos (digits2_pos p) - 53)%Z as [|q|q] eqn:E; try lia.
  - assert (D53 : digits2_pos p = 53%positive) by lia.
    exists p, 0%Z. split; [apply binary_round_aux_exact; [exact D53 | lia]|].
    split; [|split; [lia | simpl; lia]].
    unfold SpecFloat.valid_binary, bounded, canonical_mantissa. rewrite D53. reflexivity.
  - assert (D53 : digits2_pos (Pos.iter xO p q) = 53%positive)
      by (rewrite digits2_pos_iter; lia).
    exists (Pos.iter xO p q), (Z.neg q).
    split; [apply binary_round_aux_exact; [exact D53 | lia]|].
    split; [|split; [lia | apply Pos_iter_xO]].
    unfold SpecFloat.valid_binary, bounded, canonical_mantissa. rewrite D53.
    apply andb_true_iff. split.
    + apply Z.eqb_eq. fexp_lia.
    + apply Z.leb_le. unfold prec, emax. lia.
Qed.

Lemma float_of_int_finite (z : Z) :
  z <> 0%Z -> (- 2 ^ 53 < z < 2 ^ 53)%Z ->
  exists s m e, Prim2SF (float_of_int z) = S754_finite s m e.
Proof.
  intros Hz Hr. unfold float_of_int, binary_normalize.
  destruct z as [|p|p]; [now elim Hz| |].
  - destruct (binary_round_small false p) as (m & e & E & V & _); [lia|].
    rewrite E, (Prim2SF_SF2Prim _ V). now exists false, m, e.
  - destruct (binary_round_small true p) as (m & e & E & V & _); [lia|].
    rewrite E, (Prim2SF_SF2Prim _ V). now exists true, m, e.
Qed.

(** An integer of magnitude below [2^53] is a float. *)
Lemma float_of_int_val (z : Z) :
  (- 2 ^ 53 < z < 2 ^ 53)%Z ->
  exists v, float_val (float_of_int z) = Some v /\ (v == inject_Z z)%Q.
Proof.
  intros Hr.
  assert (G : forall s p, (Z.pos p < 2 ^ 53)%Z ->
            exists v, float_val (SF2Prim (binary_round prec emax s p 0)) = Some v
                      /\ (v == inject_Z (signed s p))%Q).
  { intros s p Hp.
    destruct (binary_round_small s p Hp) as (m & e & E & V & He & Hm).
    unfold float_val. rewrite E, (Prim2SF_SF2Prim _ V).
    eexists. split; [reflexivity|].
    assert (P : (0 < 2 ^ (- e))%Z) by (apply Z.pow_pos_nonneg; lia).
    destruct (Z.leb_spec 0 e) as [X|X].
    - assert (e = 0%Z) by lia. subst e. simpl in Hm.
      unfold Qeq, inject_Z. simpl Qnum. simpl Qden.
      destruct s; simpl signed; lia.
    - unfold Qeq, inject_Z. simpl Qnum. simpl Qden.
      rewrite Z2Pos.id by exact P.
      destruct s; simpl signed.
      + change (Z.neg m) with (- Z.pos m)%Z. change (Z.neg p) with (- Z.pos p)%Z.
        rewrite Hm. lia.
      + rewrite Hm. lia. }
  unfold float_of_int, binary_normalize.
  destruct z as [|p|p].
  - exists 0%Q. split; reflexivity.
  - apply (G false p). lia.
  - apply (G true p). lia.
Qed.

(** A column of integer literals only is held as [int64], and its floor
    division is the integer one, [z / 15]; the float of the integer gives
    the same credits while the integer is below [2^53] in magnitude. *)
Lemma floordiv_astype_int_of_int (z : Z) :
  (- 2 ^ 53 < z < 2 ^ 53)%Z ->
  floordiv_astype_int (float_of_int z) 15 = Some (z / 15)%Z.
Proof.
  intros Hr. destruct (float_of_int_val z Hr) as (v & V & E).
  rewrite (floordiv_astype_int_exact _ v V).
  - f_equal. rewrite (Qfloor_comp _ (inject_Z z / inject_Z 15)).
    + symmetry. apply Zdiv_Qdiv.
    + now rewrite E.
  - rewrite E, <- inject_Z_opp, <- Zle_Qle. lia.
  - rewrite E, <- Zle_Qle. lia.
Qed.

(** A finite float other than zero divided by itself is 1. *)
Lemma div_self (x : float) (s : bool) (m : positive) (e : Z) :
  Prim2SF x = S754_finite s m e -> (x / x)%float = 1%float.
Proof.
  intros E. apply Prim2SF_inj. rewrite div_spec, E.
  unfold SF64div, SFdiv, SFdiv_core_binary.
  match goal with |- context [Z.min (fexp prec emax ?a) ?b] =>
    assert (A : a = 0%Z) by lia; assert (B : b = 0%Z) by lia; rewrite A, B
  end.
  change (Z.min (fexp prec emax 0) 0) with (-53)%Z.
  match goal with |- context [IntDef.Z.div_eucl ?a (Z.pos m)] =>
    assert (Q : IntDef.Z.div_eucl a (Z.pos m) = (2 ^ 53, 0)%Z)
  end.
  { change (Z.div_eucl (Z.shiftl (Z.pos m) 53) (Z.pos m) = (2 ^ 53, 0)%Z).
    rewrite Z.shiftl_mul_pow2 by lia.
    pose proof (Z_div_mod (Z.pos m * 2 ^ 53) (Z.pos m) eq_refl) as DM.
    destruct (Z.div_eucl (Z.pos m * 2 ^ 53) (Z.pos m)) as [q r].
    destruct DM as [DM1 DM2].
    assert (q = 2 ^ 53)%Z by nia. subst q. f_equal. lia. }
  rewrite Q. unfold new_location.
  match goal with |- context [if ?b then _ else _] => destruct b end;
    now destruct s.
Qed.

(** ** The last accumulated percentage *)

Lemma pct_acumulado_self (t : Z) :
  t <> 0%Z -> (- 2 ^ 53 < t < 2 ^ 53)%Z -> pct_acumulado t t = 100%float.
Proof.
  intros H0 Hr. unfold pct_acumulado.
  destruct (float_of_int_finite t H0 Hr) as (s & m & e & E).
  rewrite (div_self _ s m e E). reflexivity.
Qed.

(** X10.  When the total of the credits is not 0 (and of magnitude below
    [2^53]), the accumulated percentage of the last year is exactly
    100.0. *)
Theorem pct_acumulado_ends_at_100
  (df : list row) (l : list acumulado) (a : acumulado) :
  total_creditos df <> 0%Z -> (- 2 ^ 53 < total_creditos df < 2 ^ 53)%Z ->
  df_acumulado df = l ++ [a] ->
  ac_Pct a = 100%float.
Proof.
  intros H0 Hr E.
  pose proof (df_acumulado_Pct df) as F. rewrite E in F.
  apply Forall_app in F. destruct F as [_ F]. inversion F as [|? ? Ha _]; subst.
  rewrite Ha, (df_acumulado_last df l a E). now apply pct_acumulado_self.
Qed.

(** X10 at credits of 10, 20 and 30 in three years: 16.67, 50 and 100 per
    cent. *)
Lemma pct_acumulado_ends_at_100_witness :
  exists l a,
    df_acumulado [ disciplina "A" 8 10 2019; disciplina "B" 7 20 2020;
                   disciplina "C" 9 30 2021 ] = l ++ [a] /\
    map ac_Pct l = [ 16.67; 50 ]%float /\ ac_Pct a = 100%float.
Proof.
  exists [ {| ac_Ano := 2019; ac_Creditos := 10; ac_Acumulado := 10;
              ac_Pct := 16.67 |};
           {| ac_Ano := 2020; ac_Creditos := 20; ac_Acumulado := 30;
              ac_Pct := 50 |} ],
         {| ac_Ano := 2021; ac_Creditos := 30; ac_Acumulado := 60;
            ac_Pct := pct_acumulado 60 60 |}.
  assert (E : df_acumulado [ disciplina "A" 8 10 2019; disciplina "B" 7 20 2020;
                             disciplina "C" 9 30 2021 ]
              = [ {| ac_Ano := 2019; ac_Creditos := 10; ac_Acumulado := 10;
                     ac_Pct := 16.67 |};
                  {| ac_Ano := 2020; ac_Creditos := 20; ac_Acumulado := 30;
                     ac_Pct := 50 |} ]
                ++ [ {| ac_Ano := 2021; ac_Creditos := 30; ac_Acumulado := 60;
                        ac_Pct := pct_acumulado 60 60 |} ])
    by (vm_compute; reflexivity).
  split; [exact E|]. split; [reflexivity|].
  apply (pct_acumulado_ends_at_100 _ _ _) with (3 := E).
  - vm_compute. discriminate.
  - vm_compute. split; reflexivity.
Defined.

(** ** The ranking of the frames [load_data] returns *)

Lemma SFltb_false_leb (x y : spec_float) :
  x <> S754_nan -> y <> S754_nan -> SFltb x y = false -> SFleb y x = true.
Proof.
  intros Hx Hy. destruct x; try (now elim Hx); destruct y; try (now elim Hy);
    clear Hx Hy; unfold SFleb; sf_order.
Qed.

Lemma ltb_false_leb (x y : float) :
  is_nan x = false -> is_nan y = false ->
  (x <? y)%float = false -> (y <=? x)%float = true.
Proof.
  rewrite !is_nan_Prim2SF, ltb_spec, leb_spec. intros Hx Hy.
  apply SFltb_false_leb; intros E; [rewrite E in Hx | rewrite E in Hy];
    discriminate.
Qed.

Lemma StronglySorted_impl_In {A : Type} (R S : A -> A -> Prop) (l : list A) :
  (forall a b, In a l -> In b l -> R a b -> S a b) ->
  StronglySorted R l -> StronglySorted S l.
Proof.
  intros H Hs. induction Hs as [|x l Hs IH Hx]; constructor.
  - apply IH. intros a b Ha Hb. apply H; now right.
  - rewrite Forall_forall in *. intros b Hb.
    apply H; [now left | now right | now apply Hx].
Qed.

Section Ranking.
Variable upper_ext : N -> list N.

(** X11.  On the rows of a frame [load_data] returns, whatever the
    selection, no row lacks a grade: [nlargest] is the head of the stable
    sort of all the selected rows, every row returned has a grade at least
    as high as each row after it, and with at most [n] rows selected all
    of them are returned. *)
Theorem nlargest_of_loaded_frame
  (f : arquivo) (anos : list Z) (areas : list area) (n : nat) :
  let df := filtrar anos areas (load_data upper_ext f) in
  Forall (fun r => is_nan (Nota r) = false) df /\
  nlargest n df = firstn n (sort_desc df) /\
  StronglySorted nota_maior_ou_igual (nlargest n df) /\
  ((List.length df <= n)%nat -> Permutation (nlargest n df) df).
Proof.
  intros df.
  assert (NN : Forall (fun r => is_nan (Nota r) = false) df).
  { apply Forall_forall. intros r Hr. subst df. unfold filtrar in Hr.
    apply filter_In in Hr. destruct Hr as [Hr _].
    pose proof (load_data_nota_not_nan upper_ext f) as F.
    rewrite Forall_forall in F. now apply F. }
  assert (P : por_nota_desc df = sort_desc df).
  { unfold por_nota_desc. rewrite Forall_forall in NN.
    rewrite (filter_none (fun r => is_nan (Nota r)) df) by exact NN.
    rewrite app_nil_r. f_equal. apply filter_all. intros r Hr.
    now rewrite (NN r Hr). }
  split; [exact NN|]. split; [unfold nlargest; now rewrite P|]. split.
  - assert (S1 : StronglySorted nao_menor (nlargest n df)).
    { pose proof (por_nota_desc_sorted df) as Hs.
      rewrite <- (firstn_skipn n (por_nota_desc df)) in Hs.
      now apply StronglySorted_app_inv in Hs. }
    revert S1. apply StronglySorted_impl_In. intros a b Ha Hb.
    assert (I : forall r, In r (nlargest n df) -> is_nan (Nota r) = false).
    { intros r Hr. unfold nlargest in Hr.
      assert (Hr' : In r (por_nota_desc df)).
      { rewrite <- (firstn_skipn n). apply in_or_app. now left. }
      apply (Permutation_in _ (por_nota_desc_perm df)) in Hr'.
      rewrite Forall_forall in NN. now apply NN. }
    unfold nao_menor, nota_maior_ou_igual. apply ltb_false_leb; auto.
  - intros L. unfold nlargest. rewrite firstn_all2.
    + apply por_nota_desc_perm.
    + now rewrite (Permutation_length (por_nota_desc_perm df)).
Qed.
End Ranking.

(** ** Where the sliders make a strength *)

(** All the positions of a slider against all the market averages. *)
Lemma limiar_destaque_check :
  forallb (fun bt : float * float =>
             forallb (fun v => Bool.eqb (0.5 <? v - fst bt)%float
                                        (snd bt <=? v)%float)
                     posicoes_slider)
          (combine benchmark_Benchmark limiar_destaque) = true.
Proof. vm_compute. reflexivity. Qed.

Lemma limiar_destaque_at (i : nat) (b t v : float) :
  nth_error benchmark_Benchmark i = Some b ->
  nth_error limiar_destaque i = Some t ->
  In v posicoes_slider ->
  (0.5 <? v - b)%float = (t <=? v)%float.
Proof.
  intros Hb Ht Hv. pose proof limiar_destaque_check as C.
  rewrite forallb_forall in C.
  assert (I : In (b, t) (combine benchmark_Benchmark limiar_destaque)).
  { apply nth_error_In with i. clear C Hv.
    revert i Hb Ht. generalize benchmark_Benchmark, limiar_destaque.
    intros l1. induction l1 as [|x l1 IH]; intros [|y l2] [|i]; simpl;
      try discriminate.
    - now intros [= ->] [= ->].
    - apply IH. }
  specialize (C _ I). rewrite forallb_forall in C. specialize (C _ Hv).
  simpl in C. now apply Bool.eqb_prop in C.
Qed.

(** X12.  With every rating at a position of its slider (0 to 5 in steps
    of 0.5), a competency is a strength exactly when its rating is at or
    above its own threshold: 4.5, 4, 5, 4.5, 4.5, 4, 5, 4.5, 5, 4.5 in
    the order of the benchmark. *)
Theorem strengths_slider_thresholds
  (ratings : list (str * float)) (df : list comparacao) :
  Forall (fun kv => In (snd kv) posicoes_slider) ratings ->
  create_career_assessment ratings = Some df ->
  forall i r, nth_error (com_diferencial df) i = Some r ->
    exists t, nth_error limiar_destaque i = Some t /\
      (0.5 <? Diferencial r)%float = (t <=? SuaAvaliacao (linha r))%float /\
      (In r (strengths (com_diferencial df)) <->
       (t <=? SuaAvaliacao (linha r))%float = true).
Proof.
  intros Hpos E i r Hr.
  pose proof (create_career_assessment_length _ _ E) as L.
  rewrite (create_career_assessment_some _ L) in E. injection E as <-.
  assert (Hi : (i < 10)%nat).
  { assert (X : (i < List.length
                       (com_diferencial
                          (zip3 (map fst ratings) (map snd ratings)
                                benchmark_Benchmark)))%nat)
      by (apply nth_error_Some; rewrite Hr; discriminate).
    unfold com_diferencial in X. rewrite length_map in X.
    rewrite <- (length_map Competencia) in X.
    destruct (zip3_columns (map fst ratings) (map snd ratings) benchmark_Benchmark)
      as (Z1 & _); [now rewrite !length_map | now rewrite length_map, L|].
    rewrite Z1, length_map, L in X. exact X. }
  destruct (nth_error_lt_some ratings i) as [[k v] Hkv]; [now rewrite L|].
  destruct (nth_error_lt_some benchmark_Benchmark i Hi) as [b Hb].
  destruct (nth_error_lt_some limiar_destaque i Hi) as [t Ht].
  assert (R : nth_error (zip3 (map fst ratings) (map snd ratings) benchmark_Benchmark) i
              = Some {| Competencia := k; SuaAvaliacao := v; MediaDeMercado := b |}).
  { apply zip3_nth_error; [| | exact Hb]; now rewrite nth_error_map, Hkv. }
  unfold com_diferencial in Hr. rewrite nth_error_map, R in Hr.
  injection Hr as <-. simpl.
  assert (Hv : In v posicoes_slider).
  { rewrite Forall_forall in Hpos.
    exact (Hpos (k, v) (nth_error_In _ _ Hkv)). }
  pose proof (limiar_destaque_at i b t v Hb Ht Hv) as T.
  exists t. split; [exact Ht|]. split; [exact T|].
  unfold strengths. rewrite filter_In. simpl. rewrite T. split; [tauto|].
  intros X. split; [|exact X].
  apply nth_error_In with i. unfold com_diferencial.
  now rewrite nth_error_map, R.
Qed.

(** X12 with every slider at 4.5, at the third competency (threshold 5). *)
Lemma strengths_slider_thresholds_witness :
  exists df,
    create_career_assessment ratings_4_5 = Some df /\
    forall r, nth_error (com_diferencial df) 2 = Some r ->
      (0.5 <? Diferencial r)%float = (5 <=? SuaAvaliacao (linha r))%float.
Proof.
  assert (L : List.length ratings_4_5 = 10%nat) by reflexivity.
  assert (P : Forall (fun kv : str * float => In (snd kv) posicoes_slider)
                     ratings_4_5).
  { apply Forall_forall. intros [k v] H. unfold ratings_4_5 in H.
    apply in_map_iff in H. destruct H as (c & E & _). injection E as _ <-.
    unfold posicoes_slider. do 9 right. left. reflexivity. }
  exists (zip3 (map fst ratings_4_5) (map snd ratings_4_5) benchmark_Benchmark).
  split; [exact (create_career_assessment_some _ L)|].
  intros r Hr.
  destruct (strengths_slider_thresholds ratings_4_5 _ P
              (create_career_assessment_some _ L) 2%nat r Hr)
    as (t & Ht & T & _).
  change (Some 5%float = Some t) in Ht. injection Ht as <-. exact T.
Defined.
